(** * pdf_static: the text statistics of [src/App.vue]

    The single-file Vue component [src/App.vue] extracts the text of a PDF
    with pdf.js, stores it in the reactive cell [pdfText] and derives the
    record [StatsResult] from it with a handful of regular expressions.

    This development embeds that script block:
    - JavaScript strings are sequences of UTF-16 code units ([jsstring]);
    - the regular expressions are kept as their pattern source text and
      parsed by the rules of ECMAScript for patterns without the [u] flag;
    - [stats] is the computed property, [handleFile] the upload handler. *)

From Stdlib Require Import ZArith List Bool Lia String Ascii.
Import ListNotations.
Local Open Scope Z_scope.

(** ** JavaScript strings *)

(** A JavaScript string is a sequence of 16-bit code units. *)
Definition jsstring : Type := list Z.

Definition jsstring_eqb (a b : jsstring) : bool :=
  if list_eq_dec Z.eq_dec a b then true else false.

Module Utf16.

(** Unicode scalar values: code points that are not surrogates. *)
Definition is_surrogate (c : Z) : bool := (0xD800 <=? c) && (c <=? 0xDFFF).

Definition scalar (cp : Z) : Prop :=
  0 <= cp <= 0x10FFFF /\ is_surrogate cp = false.

Definition is_bmp (cp : Z) : bool := cp <? 0x10000.

(** The code units of one code point (ECMAScript, CodePointToUTF16CodeUnits). *)
Definition encode_cp (cp : Z) : jsstring :=
  if is_bmp cp then [cp]
  else [0xD800 + Z.shiftr (cp - 0x10000) 10;
        0xDC00 + Z.land (cp - 0x10000) 0x3FF].

Definition encode (cps : list Z) : jsstring := flat_map encode_cp cps.

End Utf16.

Module Utf8.

(** Decoding of the UTF-8 bytes of a source-file literal into code points.
    Used only to write string and pattern literals the way the source
    file has them. *)
Fixpoint decode (bs : list Z) : list Z :=
  match bs with
  | [] => []
  | b0 :: r0 =>
    if b0 <? 0x80 then b0 :: decode r0
    else match r0 with
    | [] => []
    | b1 :: r1 =>
      if b0 <? 0xE0 then
        (Z.shiftl (Z.land b0 0x1F) 6 + Z.land b1 0x3F) :: decode r1
      else match r1 with
      | [] => []
      | b2 :: r2 =>
        if b0 <? 0xF0 then
          (Z.shiftl (Z.land b0 0x0F) 12 + Z.shiftl (Z.land b1 0x3F) 6
           + Z.land b2 0x3F) :: decode r2
        else match r2 with
        | [] => []
        | b3 :: r3 =>
          (Z.shiftl (Z.land b0 0x07) 18 + Z.shiftl (Z.land b1 0x3F) 12
           + Z.shiftl (Z.land b2 0x3F) 6 + Z.land b3 0x3F) :: decode r3
        end
      end
    end
  end.

Definition bytes (s : string) : list Z :=
  map (fun a => Z.of_N (N_of_ascii a)) (list_ascii_of_string s).

End Utf8.

(** The code points of a literal of the source file. *)
Definition code_points (s : string) : list Z := Utf8.decode (Utf8.bytes s).

(** The JavaScript string denoted by a literal of the source file. *)
Definition js (s : string) : jsstring := Utf16.encode (code_points s).

(** ** Regular expressions

    Every pattern of the source is written without the [u] flag, so it is
    matched against code units, and its text is read by the grammar of
    ECMAScript for non-unicode patterns: [\u] takes exactly four hexadecimal
    digits, a backslash before a punctuation character denotes that
    character, and inside a class [a-b] is a range whenever an atom stands
    on both sides of the dash. *)

Module RegExp.

Inductive ClassToken : Type :=
| TChar (c : Z)   (* a class atom denoting one code unit *)
| TDash.          (* an unescaped [-] *)

Definition hex_digit (c : Z) : option Z :=
  if (48 <=? c) && (c <=? 57) then Some (c - 48)
  else if (97 <=? c) && (c <=? 102) then Some (c - 87)
  else if (65 <=? c) && (c <=? 70) then Some (c - 55)
  else None.

Definition hex4 (a b c d : Z) : option Z :=
  match hex_digit a, hex_digit b, hex_digit c, hex_digit d with
  | Some x, Some y, Some z, Some w => Some (((x * 16 + y) * 16 + z) * 16 + w)
  | _, _, _, _ => None
  end.

Definition is_alnum (c : Z) : bool :=
  ((48 <=? c) && (c <=? 57)) || ((65 <=? c) && (c <=? 90))
  || ((97 <=? c) && (c <=? 122)).

(** The atoms of a class body.  The escapes of the fragment are [\uXXXX]
    and the identity escape of a non-alphanumeric character; any other
    escape is outside the fragment and makes the result [None]. *)
Fixpoint class_tokens (src : list Z) : option (list ClassToken) :=
  match src with
  | [] => Some []
  | c :: r =>
    if c =? 92 then
      match r with
      | [] => None
      | e :: r1 =>
        if e =? 117 then
          match r1 with
          | h1 :: h2 :: h3 :: h4 :: r2 =>
            match hex4 h1 h2 h3 h4 with
            | Some v => option_map (cons (TChar v)) (class_tokens r2)
            | None => None
            end
          | _ => None
          end
        else if is_alnum e then None
        else option_map (cons (TChar e)) (class_tokens r1)
      end
    else if c =? 45 then option_map (cons TDash) (class_tokens r)
    else option_map (cons (TChar c)) (class_tokens r)
  end.

Definition atom_value (t : ClassToken) : Z :=
  match t with TChar c => c | TDash => 45 end.

(** ClassRanges: an atom, a dash and an atom form a range; an atom not
    followed by a dash and an atom stands for itself.  A range out of
    order is a syntax error. *)
Fixpoint class_ranges (ts : list ClassToken) : option (list (Z * Z)) :=
  match ts with
  | [] => Some []
  | a :: r =>
    match r with
    | TDash :: b :: r' =>
      if atom_value a <=? atom_value b
      then option_map (cons (atom_value a, atom_value b)) (class_ranges r')
      else None
    | _ => option_map (cons (atom_value a, atom_value a)) (class_ranges r)
    end
  end.

(** The ranges of the class [[src]]; a negated class is outside the
    fragment. *)
Definition parse_class (src : list Z) : option (list (Z * Z)) :=
  match src with
  | 94 :: _ => None
  | _ => match class_tokens src with
         | Some ts => class_ranges ts
         | None => None
         end
  end.

Definition in_range (c : Z) (r : Z * Z) : bool :=
  (fst r <=? c) && (c <=? snd r).

Definition in_ranges (rs : list (Z * Z)) (c : Z) : bool :=
  existsb (in_range c) rs.

(** [\s]: WhiteSpace and LineTerminator of ECMAScript. *)
Definition white_space : list (Z * Z) :=
  [ (0x0009, 0x000D); (0x0020, 0x0020); (0x00A0, 0x00A0); (0x1680, 0x1680);
    (0x2000, 0x200A); (0x2028, 0x2029); (0x202F, 0x202F); (0x205F, 0x205F);
    (0x3000, 0x3000); (0xFEFF, 0xFEFF) ].

(** A pattern atom that consumes one code unit. *)
Inductive Atom : Type :=
| Class (rs : list (Z * Z))   (* [...] *)
| EscapeS                     (* \s *)
| EscapeN.                    (* \n *)

Definition atom_matches (a : Atom) (c : Z) : bool :=
  match a with
  | Class rs => in_ranges rs c
  | EscapeS => in_ranges white_space c
  | EscapeN => c =? 0x000A
  end.

(** The two pattern shapes of the source: an atom, or an atom under [+]. *)
Inductive Pattern : Type :=
| One (a : Atom)
| Plus (a : Atom).

(** Left-to-right scan for [a+]: [cur] holds, reversed, the code units of
    the match in progress; the match is greedy and ends at the first code
    unit [a] rejects, where the scan resumes. *)
Fixpoint scan_plus (a : Atom) (cur : jsstring) (s : jsstring)
  : list jsstring :=
  match s with
  | [] => match cur with [] => [] | _ => [rev cur] end
  | c :: s' =>
    if atom_matches a c then scan_plus a (c :: cur) s'
    else match cur with
         | [] => scan_plus a [] s'
         | _ => rev cur :: scan_plus a [] s'
         end
  end.

Fixpoint scan_one (a : Atom) (s : jsstring) : list jsstring :=
  match s with
  | [] => []
  | c :: s' =>
    if atom_matches a c then [c] :: scan_one a s' else scan_one a s'
  end.

(** All the matches of a global pattern, in order. *)
Definition match_all (p : Pattern) (s : jsstring) : list jsstring :=
  match p with
  | One a => scan_one a s
  | Plus a => scan_plus a [] s
  end.

(** [s.match(/p/g)]: the array of all matches, or [null] when there is
    none. *)
Definition String_match (s : jsstring) (p : Pattern)
  : option (list jsstring) :=
  match match_all p s with
  | [] => None
  | ms => Some ms
  end.

(** [s.replace(/a/g, '')]: every code unit the atom matches is dropped. *)
Fixpoint String_replace_empty (s : jsstring) (a : Atom) : jsstring :=
  match s with
  | [] => []
  | c :: s' =>
    if atom_matches a c then String_replace_empty s' a
    else c :: String_replace_empty s' a
  end.

End RegExp.

(** [x || []] for an array-or-null [x]. *)
Definition or_empty {A : Type} (x : option (list A)) : list A :=
  match x with Some l => l | None => [] end.

(** ** The script block of [src/App.vue] *)

Module App.

Import RegExp.

(** [interface StatsResult] *)
Record StatsResult : Type := {
  chineseChars : nat;
  englishWords : nat;
  englishLetters : nat;
  numbers : nat;
  chinesePunctuation : nat;
  englishPunctuation : nat;
  spaces : nat;
  lineBreaks : nat;
  totalChars : nat;
  totalCharsNoSpace : nat
}.

Definition dquote : string := String "034"%char EmptyString.

(** The class [[src]] of a regular-expression literal. *)
Definition char_class (src : string) : Atom :=
  Class (or_empty (parse_class (js src))).

(** The text between the brackets of the six class literals of [stats]. *)
Definition chineseChars_src : string :=
  "\u4e00-\u9fff\u3400-\u4dbf\u20000-\u2a6df\u2a700-\u2b73f\u2b740-\u2b81f\u2b820-\u2ceaf\uf900-\ufaff\u2f800-\u2fa1f".
Definition englishLetters_src : string := "a-zA-Z".
Definition numbers_src : string := "0-9".
Definition chinesePunctuation_src : string :=
  "，。！？、；：" ++ dquote ++ dquote ++ "''（）【】《》…—～·".
Definition englishPunctuation_src : string :=
  ",.!?;:'" ++ dquote ++ "()\[\]{}<>\/\\@#$%^&*\-_+=|`~".

(** [const stats = computed<StatsResult | null>(() => ...)], as a function
    of the value of [pdfText]. *)
Definition stats (pdfText : jsstring) : option StatsResult :=
  match pdfText with
  | [] => None
  | _ =>
    let text := pdfText in
    let chineseChars :=
      or_empty (String_match text (One (char_class chineseChars_src))) in
    let englishWords :=
      or_empty (String_match text (Plus (char_class englishLetters_src))) in
    let englishLetters :=
      or_empty (String_match text (One (char_class englishLetters_src))) in
    let numbers :=
      or_empty (String_match text (One (char_class numbers_src))) in
    let chinesePunctuation :=
      or_empty (String_match text (One (char_class chinesePunctuation_src))) in
    let englishPunctuation :=
      or_empty (String_match text (One (char_class englishPunctuation_src))) in
    let spaces := or_empty (String_match text (One EscapeS)) in
    let lineBreaks := or_empty (String_match text (One EscapeN)) in
    let totalCharsNoSpace := List.length (String_replace_empty text EscapeS) in
    Some {| chineseChars := List.length chineseChars;
            englishWords := List.length englishWords;
            englishLetters := List.length englishLetters;
            numbers := List.length numbers;
            chinesePunctuation := List.length chinesePunctuation;
            englishPunctuation := List.length englishPunctuation;
            spaces := List.length spaces;
            lineBreaks := List.length lineBreaks;
            totalChars := List.length text;
            totalCharsNoSpace := totalCharsNoSpace |}
  end.

(** *** pdf.js, as far as [handleFile] uses it

    A promise that rejects (or a call that throws) is [None]. *)

Inductive Item : Type :=
| TextItem (str : jsstring)   (* has a [str] property *)
| TextMarkedContent.          (* has none *)

Record TextContent : Type := { items : list Item }.

Record PDFPageProxy : Type := { getTextContent : option TextContent }.

Record PDFDocumentProxy : Type := {
  numPages : nat;
  getPage : nat -> option PDFPageProxy
}.

Record File : Type := {
  name : jsstring;
  type : jsstring;
  arrayBuffer : option (list Z)
}.

(** The five reactive cells of the component. *)
Record State : Type := {
  isDragging : bool;
  isLoading : bool;
  fileName : jsstring;
  pdfText : jsstring;
  errorMessage : jsstring
}.

Definition set_isLoading (v : bool) (st : State) : State :=
  {| isDragging := isDragging st; isLoading := v; fileName := fileName st;
     pdfText := pdfText st; errorMessage := errorMessage st |}.

Definition set_fileName (v : jsstring) (st : State) : State :=
  {| isDragging := isDragging st; isLoading := isLoading st; fileName := v;
     pdfText := pdfText st; errorMessage := errorMessage st |}.

Definition set_pdfText (v : jsstring) (st : State) : State :=
  {| isDragging := isDragging st; isLoading := isLoading st;
     fileName := fileName st; pdfText := v;
     errorMessage := errorMessage st |}.

Definition set_errorMessage (v : jsstring) (st : State) : State :=
  {| isDragging := isDragging st; isLoading := isLoading st;
     fileName := fileName st; pdfText := pdfText st; errorMessage := v |}.

(** The line feed ['\n']. *)
Definition LF : jsstring := [0x000A].

Definition has_str (item : Item) : bool :=
  match item with TextItem _ => true | TextMarkedContent => false end.

Definition str (item : Item) : jsstring :=
  match item with TextItem s => s | TextMarkedContent => [] end.

(** [textContent.items.filter(item => 'str' in item).map(item => item.str)
    .join('')] *)
Definition pageText (textContent : TextContent) : jsstring :=
  List.concat (map str (filter has_str (items textContent))).

(** [for (let i = 1; i <= pdf.numPages; i++) { ... }], with [remaining]
    the number of iterations left; [None] when a page cannot be read. *)
Fixpoint page_loop (pdf : PDFDocumentProxy) (remaining i : nat)
         (fullText : jsstring) : option jsstring :=
  match remaining with
  | O => Some fullText
  | S k =>
    match getPage pdf i with
    | None => None
    | Some page =>
      match getTextContent page with
      | None => None
      | Some textContent =>
        page_loop pdf k (S i) (fullText ++ (pageText textContent ++ LF))
      end
    end
  end.

Definition read_pages (pdf : PDFDocumentProxy) : option jsstring :=
  page_loop pdf (numPages pdf) 1%nat [].

Definition reset (st : State) : State :=
  set_errorMessage [] (set_pdfText [] (set_fileName [] st)).

Section Handler.

(** [pdfjsLib.getDocument({ data }).promise] *)
Variable getDocument : list Z -> option PDFDocumentProxy.

(** The body of the [try] block: the assembled text, or [None] when
    anything in it throws. *)
Definition extract (file : File) : option jsstring :=
  match arrayBuffer file with
  | None => None
  | Some data =>
    match getDocument data with
    | None => None
    | Some pdf => read_pages pdf
    end
  end.

(** [handleFile], from the state at the call to the state once its
    promise has settled. *)
Definition handleFile (file : option File) (st : State) : State :=
  match file with
  | None => set_errorMessage (js "请上传 PDF 文件") st
  | Some f =>
    if negb (jsstring_eqb (type f) (js "application/pdf"))
    then set_errorMessage (js "请上传 PDF 文件") st
    else
      let st := set_errorMessage [] st in
      let st := set_isLoading true st in
      let st := set_fileName (name f) st in
      let st := set_pdfText [] st in
      let st :=
        match extract f with
        | Some fullText => set_pdfText fullText st
        | None =>
          set_errorMessage (js "PDF 解析失败，请确保文件未损坏") st
        end in
      set_isLoading false st
  end.

End Handler.

End App.

Import RegExp App.

(** ** Counting and the sets the classes denote *)

(** The number of elements of [s] that satisfy [p]. *)
Definition count (p : Z -> bool) (s : list Z) : nat :=
  List.length (filter p s).

Definition member (l : list Z) (c : Z) : bool := existsb (Z.eqb c) l.

(** The code units the class of [chineseChars] accepts: the ranges the
    pattern text parses to, merged. *)
Definition chineseChars_accepts (c : Z) : bool :=
  ((0x0030 <=? c) && (c <=? 0x2FA1)) || ((0x3400 <=? c) && (c <=? 0x4DBF))
  || ((0x4E00 <=? c) && (c <=? 0x9FFF)) || ((0xF900 <=? c) && (c <=? 0xFAFF)).

Definition latin_letter (c : Z) : bool :=
  ((0x41 <=? c) && (c <=? 0x5A)) || ((0x61 <=? c) && (c <=? 0x7A)).

Definition ascii_digit (c : Z) : bool := (0x30 <=? c) && (c <=? 0x39).

(** The members of the class of [chinesePunctuation], duplicates removed:
    the seventeen non-ASCII marks of the literal and the two ASCII quotation
    marks U+0022 and U+0027. *)
Definition chinesePunctuation_set : list Z :=
  [ 0xFF0C; 0x3002; 0xFF01; 0xFF1F; 0x3001; 0xFF1B; 0xFF1A; 0x0022; 0x0027;
    0xFF08; 0xFF09; 0x3010; 0x3011; 0x300A; 0x300B; 0x2026; 0x2014; 0xFF5E;
    0x00B7 ].

(** The members of the class of [englishPunctuation]. *)
Definition englishPunctuation_set : list Z :=
  [ 44; 46; 33; 63; 59; 58; 39; 34; 40; 41; 91; 93; 123; 125; 60; 62; 47; 92;
    64; 35; 36; 37; 94; 38; 42; 45; 95; 43; 61; 124; 96; 126 ].

Definition scalarb (cp : Z) : bool :=
  (0 <=? cp) && (cp <=? 0x10FFFF) && negb (Utf16.is_surrogate cp).

(** The text content of page [i], when both promises resolve. *)
Definition textContent_at (pdf : PDFDocumentProxy) (i : nat)
  : option TextContent :=
  match getPage pdf i with
  | Some page => getTextContent page
  | None => None
  end.

Definition zero_counts : StatsResult :=
  {| chineseChars := 0; englishWords := 0; englishLetters := 0; numbers := 0;
     chinesePunctuation := 0; englishPunctuation := 0; spaces := 0;
     lineBreaks := 0; totalChars := 0; totalCharsNoSpace := 0 |}.

(** ** The rules as the specification words them

    These definitions follow the specification, not the code; the theorems
    compare the code with them. *)

Module Spec.

(** The ideograph rule as the specification words it: eight closed
    intervals of code points. *)
Definition ideograph (cp : Z) : bool :=
  in_ranges
    [ (0x4E00, 0x9FFF); (0x3400, 0x4DBF); (0x20000, 0x2A6DF);
      (0x2A700, 0x2B73F); (0x2B740, 0x2B81F); (0x2B820, 0x2CEAF);
      (0xF900, 0xFAFF); (0x2F800, 0x2FA1F) ] cp.

(** The Chinese punctuation set as the claim prints it, with the four
    curly quotation marks U+201C, U+201D, U+2018, U+2019. *)
Definition chinese_punctuation : list Z :=
  code_points "，。！？、；：“”‘’（）【】《》…—～·".

(** The assembler as the specification words it: the page texts in order,
    each followed by one line feed. *)
Definition assemble (texts : list jsstring) : jsstring :=
  flat_map (fun t => t ++ LF) texts.

Definition starts_outside (p : Z -> bool) (s : list Z) : Prop :=
  match s with [] => True | c :: _ => p c = false end.

(** [Runs p s rs]: [rs] lists, from left to right, the maximal contiguous
    runs of elements of [s] that satisfy [p].  A run is not empty, all its
    elements satisfy [p], and what follows it is the end of [s] or an
    element outside [p]; the elements between runs are outside [p]. *)
Inductive Runs (p : Z -> bool) : list Z -> list (list Z) -> Prop :=
| Runs_nil : Runs p [] []
| Runs_skip (c : Z) (s : list Z) (rs : list (list Z)) :
    p c = false -> Runs p s rs -> Runs p (c :: s) rs
| Runs_run (r s : list Z) (rs : list (list Z)) :
    r <> [] -> Forall (fun c => p c = true) r -> starts_outside p s ->
    Runs p s rs -> Runs p (r ++ s) (r :: rs).

End Spec.

(** ** Sample inputs *)

Definition page_of_text (t : jsstring) : PDFPageProxy :=
  {| getTextContent := Some {| items := [TextItem t] |} |}.

(** A document whose pages 1..n have the given texts. *)
Definition pdf_of_texts (texts : list jsstring) : PDFDocumentProxy :=
  {| numPages := List.length texts;
     getPage := fun i =>
       match i with
       | O => None
       | S j => option_map page_of_text (nth_error texts j)
       end |}.

(** A document of two pages, "A" and "B". *)
Definition pdf_AB : PDFDocumentProxy :=
  {| numPages := 2;
     getPage := fun i =>
       match i with
       | 1%nat => Some (page_of_text (js "A"))
       | 2%nat => Some (page_of_text (js "B"))
       | _ => None
       end |}.

(** The code points of “你好”，he said: 'ok'! *)
Definition quoted_text : list Z :=
  Eval vm_compute in code_points "“你好”，he said: 'ok'!".

(** A text file submitted while the statistics of "report.pdf" are shown. *)
Definition notes_txt : File :=
  {| name := js "notes.txt"; type := js "text/plain";
     arrayBuffer := Some [104; 105] |}.

Definition showing_report : State :=
  {| isDragging := false; isLoading := false; fileName := js "report.pdf";
     pdfText := [72; 105; 10]; errorMessage := [] |}.

(** ** The event handlers and the template

    The rest of the script block: the two halves of [handleFile] around its
    awaits, the four DOM handlers, and the conditional structure of the
    template. *)

Module Component.

Definition set_isDragging (v : bool) (st : State) : State :=
  {| isDragging := v; isLoading := isLoading st; fileName := fileName st;
     pdfText := pdfText st; errorMessage := errorMessage st |}.

(** The state of a freshly mounted component: the initial values of the
    five [ref]s. *)
Definition initial : State :=
  {| isDragging := false; isLoading := false; fileName := [];
     pdfText := []; errorMessage := [] |}.

(** The file [handleFile] goes on to read: none when the guard returns. *)
Definition pending (file : option File) : option File :=
  match file with
  | None => None
  | Some f =>
    if negb (jsstring_eqb (type f) (js "application/pdf")) then None
    else Some f
  end.

(** [handleFile] up to its first [await]: the guard, or the four
    assignments before [try]. *)
Definition handleFile_begin (file : option File) (st : State) : State :=
  match pending file with
  | None => set_errorMessage (js "请上传 PDF 文件") st
  | Some f =>
    let st := set_errorMessage [] st in
    let st := set_isLoading true st in
    let st := set_fileName (name f) st in
    set_pdfText [] st
  end.

Section WithPdfJs.

Variable getDocument : list Z -> option PDFDocumentProxy.

(** [handleFile] after its last [await], on the state of that moment: the
    assignment that ends the [try] block or the one of [catch], then
    [finally].  The text assembled in between is local to the call. *)
Definition handleFile_settle (f : File) (st : State) : State :=
  let st :=
    match extract getDocument f with
    | Some fullText => set_pdfText fullText st
    | None => set_errorMessage (js "PDF 解析失败，请确保文件未损坏") st
    end in
  set_isLoading false st.

(** [onFileInput]: [file] is [target.files?.[0]]. *)
Definition onFileInput (file : option File) (st : State) : State :=
  match file with
  | Some f => handleFile getDocument (Some f) st
  | None => st
  end.

(** [onDragOver] and [onDragLeave]; [preventDefault] leaves the five cells
    alone. *)
Definition onDragOver (st : State) : State := set_isDragging true st.

Definition onDragLeave (st : State) : State := set_isDragging false st.

(** [onDrop]: [file] is [event.dataTransfer?.files[0]]. *)
Definition onDrop (file : option File) (st : State) : State :=
  let st := set_isDragging false st in
  match file with
  | Some f => handleFile getDocument (Some f) st
  | None => st
  end.

(** What the user does; a load is finished before the next event. *)
Inductive Event : Type :=
| FileInput (file : option File)
| DragOver
| DragLeave
| Drop (file : option File)
| Reset.

Definition handle (st : State) (e : Event) : State :=
  match e with
  | FileInput file => onFileInput file st
  | DragOver => onDragOver st
  | DragLeave => onDragLeave st
  | Drop file => onDrop file st
  | Reset => reset st
  end.

Definition run (es : list Event) (st : State) : State :=
  fold_left handle es st.

(** The files a sequence of events hands to [handleFile]. *)
Definition submitted (es : list Event) : list File :=
  flat_map (fun e => match e with
                     | FileInput (Some f) | Drop (Some f) => [f]
                     | _ => []
                     end) es.

End WithPdfJs.

(** The [v-if] structure of the template. *)
Inductive UploadState : Type :=
| Loading                           (* v-if="isLoading" *)
| ChooseFile                        (* v-else-if="!fileName" *)
| FileChosen (fileName : jsstring). (* v-else *)

Record View : Type := {
  upload : UploadState;
  error : option jsstring;          (* v-if="errorMessage" *)
  results : option StatsResult      (* v-if="stats" *)
}.

Definition render (st : State) : View :=
  {| upload :=
       if isLoading st then Loading
       else match fileName st with
            | [] => ChooseFile
            | _ => FileChosen (fileName st)
            end;
     error :=
       match errorMessage st with
       | [] => None
       | _ => Some (errorMessage st)
       end;
     results := stats (pdfText st) |}.

End Component.

(** What holds of the state after events handled one after the other: no
    load is in progress, a text that is held is the text extracted from a
    submitted PDF whose name is the file name held, and the error is empty
    or one of the two messages. *)
Definition settled (getDocument : list Z -> option PDFDocumentProxy)
           (es : list Component.Event) (st : State) : Prop :=
  isLoading st = false /\
  (pdfText st <> [] ->
   exists f, In f (Component.submitted es) /\
             type f = js "application/pdf" /\
             fileName st = name f /\
             extract getDocument f = Some (pdfText st)) /\
  (errorMessage st = [] \/ errorMessage st = js "请上传 PDF 文件" \/
   errorMessage st = js "PDF 解析失败，请确保文件未损坏").

(** Whether the template renders the reset button: it stands in the
    [v-else] branch of the upload zone alone. *)
Definition reset_button (st : State) : bool :=
  match Component.upload (Component.render st) with
  | Component.FileChosen _ => true
  | _ => false
  end.

(** The field [f] of the statistics of [text], 0 when there are none. *)
Definition counted (f : StatsResult -> nat) (text : jsstring) : nat :=
  match stats text with Some r => f r | None => 0%nat end.

(** Whether a scan that was inside a run ([b]) or not is inside one after
    [s]. *)
Definition ends_inside (p : Z -> bool) (b : bool) (s : list Z) : bool :=
  fold_left (fun _ c => p c) s b.

Definition nonempty (cur : jsstring) : bool :=
  match cur with [] => false | _ => true end.

Definition starts_inside (p : Z -> bool) (s : list Z) : bool :=
  match s with [] => false | c :: _ => p c end.

(** ** More sample inputs *)

Definition pdf_bytes : list Z := [37; 80; 68; 70].

(** A document whose second page cannot be read. *)
Definition pdf_torn : PDFDocumentProxy :=
  {| numPages := 2;
     getPage := fun i =>
       match i with
       | 1%nat => Some (page_of_text (js "A"))
       | 2%nat => Some {| getTextContent := None |}
       | _ => None
       end |}.

(** pdf.js on four byte sequences. *)
Definition sample_getDocument (data : list Z) : option PDFDocumentProxy :=
  if list_eq_dec Z.eq_dec data pdf_bytes then Some pdf_AB
  else if list_eq_dec Z.eq_dec data [37; 80] then Some pdf_torn
  else if list_eq_dec Z.eq_dec data [37; 80; 68]
       then Some (pdf_of_texts [js "C"])
  else None.

Definition report_pdf : File :=
  {| name := js "report.pdf"; type := js "application/pdf";
     arrayBuffer := Some pdf_bytes |}.

(** A file that claims to be a PDF and is not one. *)
Definition broken_pdf : File :=
  {| name := js "broken.pdf"; type := js "application/pdf";
     arrayBuffer := Some [104; 105] |}.

Definition torn_pdf : File :=
  {| name := js "torn.pdf"; type := js "application/pdf";
     arrayBuffer := Some [37; 80] |}.

Definition other_pdf : File :=
  {| name := js "other.pdf"; type := js "application/pdf";
     arrayBuffer := Some [37; 80; 68] |}.

(** * Lemmas *)

Example js_hello :
  js "Hello 世界, 123!" =
  [72; 101; 108; 108; 111; 32; 0x4E16; 0x754C; 44; 32; 49; 50; 51; 33].
Proof. reflexivity. Qed.

Example js_supplementary : js "𠀀" = [0xD840; 0xDC00].
Proof. reflexivity. Qed.

(** ** Counting matches *)

Section Matching.

Variable a : Atom.

Lemma or_empty_String_match (s : jsstring) (p : Pattern) :
  or_empty (String_match s p) = match_all p s.
Proof. unfold String_match. destruct (match_all p s); reflexivity. Qed.

Lemma scan_one_length (s : jsstring) :
  List.length (scan_one a s) = count (atom_matches a) s.
Proof.
  unfold count. induction s as [|c s IH]; simpl; [reflexivity|].
  destruct (atom_matches a c); simpl; now rewrite IH.
Qed.

Lemma String_replace_empty_filter (s : jsstring) :
  String_replace_empty s a = filter (fun c => negb (atom_matches a c)) s.
Proof.
  induction s as [|c s IH]; simpl; [reflexivity|].
  destruct (atom_matches a c); simpl; now rewrite IH.
Qed.

Lemma count_one (s : jsstring) :
  List.length (or_empty (String_match s (One a))) = count (atom_matches a) s.
Proof. rewrite or_empty_String_match. apply scan_one_length. Qed.

End Matching.

Lemma count_negb (p : Z -> bool) (s : list Z) :
  (count (fun c => negb (p c)) s + count p s = List.length s)%nat.
Proof.
  unfold count. induction s as [|c s IH]; simpl; [reflexivity|].
  destruct (p c); simpl; lia.
Qed.

Lemma count_le (p q : Z -> bool) (s : list Z) :
  (forall c, p c = true -> q c = true) -> (count p s <= count q s)%nat.
Proof.
  intros Hpq. unfold count. induction s as [|c s IH]; simpl; [lia|].
  destruct (p c) eqn:Hp.
  - rewrite (Hpq c Hp). simpl. lia.
  - destruct (q c); simpl; lia.
Qed.

Lemma count_ext (p q : Z -> bool) (s : list Z) :
  (forall c, p c = q c) -> count p s = count q s.
Proof.
  intros H. unfold count. now rewrite (filter_ext p q H).
Qed.

(** The record [stats] returns for a text that is not empty, field by
    field. *)
Lemma stats_fields (text : jsstring) (r : StatsResult) :
  stats text = Some r ->
  chineseChars r = count (atom_matches (char_class chineseChars_src)) text /\
  englishWords r =
    List.length (scan_plus (char_class englishLetters_src) [] text) /\
  englishLetters r = count (atom_matches (char_class englishLetters_src)) text /\
  numbers r = count (atom_matches (char_class numbers_src)) text /\
  chinesePunctuation r =
    count (atom_matches (char_class chinesePunctuation_src)) text /\
  englishPunctuation r =
    count (atom_matches (char_class englishPunctuation_src)) text /\
  spaces r = count (atom_matches EscapeS) text /\
  lineBreaks r = count (atom_matches EscapeN) text /\
  totalChars r = List.length text /\
  totalCharsNoSpace r =
    count (fun c => negb (atom_matches EscapeS c)) text.
Proof.
  destruct text as [|c s]; [discriminate|].
  unfold stats. remember (c :: s) as text eqn:Etext. clear Etext.
  intros H. injection H as <-.
  cbn [chineseChars englishWords englishLetters numbers chinesePunctuation
       englishPunctuation spaces lineBreaks totalChars totalCharsNoSpace].
  rewrite !count_one, or_empty_String_match, String_replace_empty_filter.
  repeat split; reflexivity.
Qed.

Lemma stats_none (text : jsstring) : stats text = None <-> text = [].
Proof.
  destruct text; unfold stats; split; intros H; try reflexivity;
    discriminate.
Qed.

(** ** What the character classes accept *)

Ltac bool_prop :=
  repeat first
    [ rewrite orb_true_iff | rewrite andb_true_iff | rewrite Z.leb_le
    | rewrite Z.ltb_lt | rewrite Z.eqb_eq | rewrite negb_true_iff
    | rewrite orb_false_iff | rewrite andb_false_iff | rewrite Z.leb_gt
    | rewrite Z.ltb_ge | rewrite Z.eqb_neq ].

Ltac class_eq Hranges :=
  unfold char_class; rewrite Hranges;
  cbn [or_empty atom_matches in_ranges existsb map];
  unfold in_range; cbn [fst snd]; rewrite ?orb_false_r;
  apply eq_true_iff_eq; cbn [existsb]; rewrite ?orb_false_r; bool_prop; lia.

Example chinesePunctuation_set_literal :
  chinesePunctuation_set
  = code_points ("，。！？、；：" ++ dquote ++ "'（）【】《》…—～·").
Proof. reflexivity. Qed.

Example englishPunctuation_set_literal :
  englishPunctuation_set
  = code_points (",.!?;:'" ++ dquote ++ "()[]{}<>/\@#$%^&*-_+=|`~").
Proof. reflexivity. Qed.

Lemma chineseChars_ranges :
  parse_class (js chineseChars_src)
  = Some [ (0x4E00, 0x9FFF); (0x3400, 0x4DBF); (0x2000, 0x2000);
           (0x30, 0x2A6D); (0x66, 0x66); (0x2A70, 0x2A70);
           (0x30, 0x2B73); (0x66, 0x66); (0x2B74, 0x2B74);
           (0x30, 0x2B81); (0x66, 0x66); (0x2B82, 0x2B82);
           (0x30, 0x2CEA); (0x66, 0x66); (0xF900, 0xFAFF);
           (0x2F80, 0x2F80); (0x30, 0x2FA1); (0x66, 0x66) ].
Proof. reflexivity. Qed.

Lemma englishLetters_ranges :
  parse_class (js englishLetters_src) = Some [ (0x61, 0x7A); (0x41, 0x5A) ].
Proof. reflexivity. Qed.

Lemma numbers_ranges :
  parse_class (js numbers_src) = Some [ (0x30, 0x39) ].
Proof. reflexivity. Qed.

Lemma chinesePunctuation_ranges :
  parse_class (js chinesePunctuation_src)
  = Some (map (fun c => (c, c))
            [ 0xFF0C; 0x3002; 0xFF01; 0xFF1F; 0x3001; 0xFF1B; 0xFF1A; 0x22;
              0x22; 0x27; 0x27; 0xFF08; 0xFF09; 0x3010; 0x3011; 0x300A;
              0x300B; 0x2026; 0x2014; 0xFF5E; 0xB7 ]).
Proof. reflexivity. Qed.

Lemma englishPunctuation_ranges :
  parse_class (js englishPunctuation_src)
  = Some (map (fun c => (c, c)) englishPunctuation_set).
Proof. reflexivity. Qed.

Lemma chineseChars_class (c : Z) :
  atom_matches (char_class chineseChars_src) c = chineseChars_accepts c.
Proof. unfold chineseChars_accepts. class_eq chineseChars_ranges. Qed.

Lemma englishLetters_class (c : Z) :
  atom_matches (char_class englishLetters_src) c = latin_letter c.
Proof. unfold latin_letter. class_eq englishLetters_ranges. Qed.

Lemma numbers_class (c : Z) :
  atom_matches (char_class numbers_src) c = ascii_digit c.
Proof. unfold ascii_digit. class_eq numbers_ranges. Qed.

Lemma in_ranges_singletons (l : list Z) (c : Z) :
  in_ranges (map (fun v => (v, v)) l) c = member l c.
Proof.
  unfold in_ranges, member. induction l as [|v l IH]; [reflexivity|].
  cbn [map existsb]. rewrite IH. f_equal.
  unfold in_range. cbn [fst snd].
  apply eq_true_iff_eq. bool_prop. lia.
Qed.

Lemma member_In (l : list Z) (c : Z) : member l c = true <-> In c l.
Proof.
  unfold member. rewrite existsb_exists. split.
  - intros (x & Hin & Hx). apply Z.eqb_eq in Hx. now subst.
  - intros Hin. exists c. split; [exact Hin | apply Z.eqb_refl].
Qed.

Lemma chinesePunctuation_class (c : Z) :
  atom_matches (char_class chinesePunctuation_src) c
  = member chinesePunctuation_set c.
Proof.
  unfold char_class. rewrite chinesePunctuation_ranges.
  cbn [or_empty atom_matches]. rewrite in_ranges_singletons.
  apply eq_true_iff_eq. rewrite !member_In.
  unfold chinesePunctuation_set. cbn [In]. tauto.
Qed.

Lemma englishPunctuation_class (c : Z) :
  atom_matches (char_class englishPunctuation_src) c
  = member englishPunctuation_set c.
Proof.
  unfold char_class. rewrite englishPunctuation_ranges.
  cbn [or_empty atom_matches]. apply in_ranges_singletons.
Qed.

(** ** Code points and code units *)

Lemma count_app (p : Z -> bool) (s t : list Z) :
  count p (s ++ t) = (count p s + count p t)%nat.
Proof. unfold count. now rewrite filter_app, length_app. Qed.

Lemma count_cons (p : Z -> bool) (c : Z) (s : list Z) :
  count p (c :: s) = ((if p c then 1 else 0) + count p s)%nat.
Proof. unfold count. simpl. now destruct (p c). Qed.

Lemma encode_cons (cp : Z) (cps : list Z) :
  Utf16.encode (cp :: cps) = Utf16.encode_cp cp ++ Utf16.encode cps.
Proof. reflexivity. Qed.

Lemma encode_nil_inv (cps : list Z) : Utf16.encode cps = [] -> cps = [].
Proof.
  destruct cps as [|cp cps]; [reflexivity|].
  rewrite encode_cons. unfold Utf16.encode_cp.
  destruct (Utf16.is_bmp cp); discriminate.
Qed.

(** A code point of the basic plane is one code unit, any other is two. *)
Lemma encode_length (cps : list Z) :
  List.length (Utf16.encode cps)
  = (count Utf16.is_bmp cps
     + 2 * count (fun cp => negb (Utf16.is_bmp cp)) cps)%nat.
Proof.
  induction cps as [|cp cps IH]; [reflexivity|].
  rewrite encode_cons, length_app, IH, !count_cons.
  unfold Utf16.encode_cp. destruct (Utf16.is_bmp cp); simpl; lia.
Qed.

(** The two halves of a surrogate pair are surrogates. *)
Lemma surrogate_pair (cp : Z) :
  0x10000 <= cp <= 0x10FFFF ->
  Utf16.is_surrogate (0xD800 + Z.shiftr (cp - 0x10000) 10) = true /\
  Utf16.is_surrogate (0xDC00 + Z.land (cp - 0x10000) 0x3FF) = true.
Proof.
  intros H. unfold Utf16.is_surrogate.
  rewrite Z.shiftr_div_pow2 by lia.
  change 0x3FF with (Z.ones 10). rewrite Z.land_ones by lia.
  change (2 ^ 10) with 1024.
  pose proof (Z.mod_pos_bound (cp - 0x10000) 1024 ltac:(lia)).
  assert (0 <= (cp - 0x10000) / 1024 <= 1023).
  { split; [apply Z.div_pos; lia|].
    apply Z.lt_succ_r. apply Z.div_lt_upper_bound; lia. }
  split; bool_prop; lia.
Qed.

(** A predicate that accepts only non-surrogate code units counts the same
    over the code units of a text as over its code points. *)
Lemma count_encode (p : Z -> bool) (cps : list Z) :
  Forall Utf16.scalar cps ->
  (forall c, p c = true -> c < 0x10000 /\ Utf16.is_surrogate c = false) ->
  count p (Utf16.encode cps) = count p cps.
Proof.
  intros Hcps Hp. induction Hcps as [|cp cps [Hcp _] _ IH]; [reflexivity|].
  rewrite encode_cons, count_app, IH, (count_cons p cp). f_equal.
  unfold Utf16.encode_cp, Utf16.is_bmp.
  destruct (cp <? 0x10000) eqn:Hb.
  - rewrite count_cons. unfold count. simpl. lia.
  - apply Z.ltb_ge in Hb.
    destruct (surrogate_pair cp ltac:(lia)) as [Hhi Hlo].
    rewrite !count_cons.
    destruct (p cp) eqn:E1; [apply Hp in E1; lia|].
    destruct (p (_ + Z.shiftr _ _)) eqn:E2;
      [apply Hp in E2; destruct E2; congruence|].
    destruct (p (_ + Z.land _ _)) eqn:E3;
      [apply Hp in E3; destruct E3; congruence|].
    reflexivity.
Qed.

(** * The claims *)

(** ** C1: the empty text *)

(** C1, as stated, fails: for the empty string [stats] is [null], not the
    all-zero record. *)
Lemma C1_empty_text_is_absent :
  stats (js "") = None /\ stats (js "") <> Some zero_counts.
Proof. split; [reflexivity | discriminate]. Qed.

(** C1 (amended): [stats] is [null] exactly when [pdfText] is the empty
    string, which is the value the component gives [pdfText] when no text is
    held ([reset] stores it); every other text has a record, and that record
    is never all-zero since its [totalChars] is positive. *)
Theorem C1_absent_iff_empty :
  (forall text : jsstring, stats text = None <-> text = []) /\
  (forall st : State, stats (pdfText (reset st)) = None) /\
  (forall (text : jsstring) (r : StatsResult),
      stats text = Some r -> (0 < totalChars r)%nat /\ r <> zero_counts).
Proof.
  split; [exact stats_none|]. split; [reflexivity|].
  intros text r H.
  destruct (stats_fields text r H) as (_ & _ & _ & _ & _ & _ & _ & _ & Ht & _).
  assert (Hpos : (0 < totalChars r)%nat).
  { rewrite Ht. destruct text; [discriminate H | simpl; lia]. }
  split; [exact Hpos|]. intros ->. simpl in Hpos. lia.
Qed.

Lemma C1_absent_iff_empty_witness :
  stats (js "a") = Some
    {| chineseChars := 1; englishWords := 1; englishLetters := 1;
       numbers := 0; chinesePunctuation := 0; englishPunctuation := 0;
       spaces := 0; lineBreaks := 0; totalChars := 1;
       totalCharsNoSpace := 1 |} /\
  (0 < 1)%nat.
Proof.
  split; [reflexivity|].
  exact (proj1 (proj2 (proj2 C1_absent_iff_empty) (js "a") _ eq_refl)).
Defined.

(** ** C2: the ideograph count *)

(** What [chineseChars] counts: the code units of the merged ranges the
    pattern text parses to. *)
Lemma chineseChars_counts (text : jsstring) (r : StatsResult) :
  stats text = Some r -> chineseChars r = count chineseChars_accepts text.
Proof.
  intros H. destruct (stats_fields text r H) as (-> & _).
  apply count_ext, chineseChars_class.
Qed.

(** C2 does not hold of the code.  The letter [A] is no ideograph and is
    counted; U+20000, the first code point of the third interval, is an
    ideograph and is not counted.  Both come from the pattern of
    [chineseChars]: without the [u] flag its five-digit escapes are read as
    a four-digit escape followed by a digit, so that [0] opens four ranges
    starting at U+0030, and the text is matched code unit by code unit, so
    that no surrogate is ever in the class. *)
Theorem C2_chineseChars_miscounts :
  (count Spec.ideograph (code_points "A") = 0%nat /\
   option_map chineseChars (stats (js "A")) = Some 1%nat) /\
  (count Spec.ideograph (code_points "𠀀") = 1%nat /\
   option_map chineseChars (stats (js "𠀀")) = Some 0%nat).
Proof. repeat split; reflexivity. Qed.

(** ** C3: the total count *)

(** C3, as stated, fails: the one code point U+20000 gives [totalChars] 2. *)
Lemma C3_supplementary_counts_twice :
  code_points "𠀀" = [0x20000] /\
  option_map totalChars (stats (Utf16.encode [0x20000]))
  <> Some (List.length [0x20000]).
Proof. split; [reflexivity | discriminate]. Qed.

(** C3 (amended): [totalChars] is the length of the text in UTF-16 code
    units: a code point below U+10000 contributes 1 and a code point of a
    supplementary plane contributes 2. *)
Theorem C3_totalChars_code_units (cps : list Z) :
  match stats (Utf16.encode cps) with
  | Some r =>
    totalChars r = List.length (Utf16.encode cps) /\
    totalChars r
    = (count Utf16.is_bmp cps
       + 2 * count (fun cp => negb (Utf16.is_bmp cp)) cps)%nat
  | None => cps = []
  end.
Proof.
  destruct (stats (Utf16.encode cps)) as [r|] eqn:E.
  - destruct (stats_fields _ r E) as (_ & _ & _ & _ & _ & _ & _ & _ & -> & _).
    split; [reflexivity | apply encode_length].
  - apply encode_nil_inv, stats_none, E.
Qed.

(** ** C4: the scenario "Hello 世界, 123!" *)

(** C4, as stated, fails: no record with the six claimed values is
    returned. *)
Lemma C4_claimed_counts_not_returned :
  ~ (exists r, stats (js "Hello 世界, 123!") = Some r /\
               chineseChars r = 2%nat /\ englishWords r = 1%nat /\
               englishLetters r = 5%nat /\ numbers r = 3%nat /\
               englishPunctuation r = 1%nat /\
               chinesePunctuation r = 1%nat).
Proof.
  intros (r & H & _ & _ & _ & _ & He & _).
  vm_compute in H. injection H as <-. discriminate He.
Qed.

(** C4 (amended): for "Hello 世界, 123!" with its ASCII comma the record has
    [englishWords] 1, [englishLetters] 5, [numbers] 3, [englishPunctuation]
    2 (the comma and the exclamation mark) and [chinesePunctuation] 0. *)
Theorem C4_hello_counts :
  exists r, stats (js "Hello 世界, 123!") = Some r /\
            englishWords r = 1%nat /\ englishLetters r = 5%nat /\
            numbers r = 3%nat /\ englishPunctuation r = 2%nat /\
            chinesePunctuation r = 0%nat.
Proof. vm_compute. eexists. split; [reflexivity|]. repeat split. Qed.

(** ** C5: the total without whitespace *)

(** C5: for every text with a record, [totalCharsNoSpace] is the length of
    the text once every whitespace code unit is removed, and it equals
    [totalChars] minus [spaces] exactly. *)
Theorem C5_totalCharsNoSpace (text : jsstring) :
  match stats text with
  | Some r =>
    totalCharsNoSpace r
    = List.length (filter (fun c => negb (in_ranges white_space c)) text) /\
    Z.of_nat (totalCharsNoSpace r)
    = Z.of_nat (totalChars r) - Z.of_nat (spaces r)
  | None => text = []
  end.
Proof.
  destruct (stats text) as [r|] eqn:E; [|now apply stats_none].
  destruct (stats_fields text r E)
    as (_ & _ & _ & _ & _ & _ & Hs & _ & Ht & Hn).
  split; [exact Hn|].
  pose proof (count_negb (atom_matches EscapeS) text). lia.
Qed.

(** ** C6: the assembler *)

Lemma page_loop_assemble (pdf : PDFDocumentProxy) (texts : list jsstring) :
  forall (i : nat) (fullText : jsstring),
    (forall j, (j < List.length texts)%nat ->
               option_map pageText (textContent_at pdf (i + j))
               = nth_error texts j) ->
    page_loop pdf (List.length texts) i fullText
    = Some (fullText ++ Spec.assemble texts).
Proof.
  induction texts as [|t ts IH]; intros i fullText H.
  - simpl. now rewrite app_nil_r.
  - pose proof (H 0%nat ltac:(simpl; lia)) as H0.
    rewrite Nat.add_0_r in H0. unfold textContent_at in H0. simpl in H0.
    simpl. destruct (getPage pdf i) as [page|]; [|discriminate].
    destruct (getTextContent page) as [tc|]; [|discriminate].
    injection H0 as ->.
    rewrite IH.
    + now rewrite <- !app_assoc.
    + intros j Hj. specialize (H (S j) ltac:(simpl; lia)).
      rewrite Nat.add_succ_r in H. exact H.
Qed.

(** C6: when the pages 1..n of the document have the texts [texts], in that
    order, the loop of [handleFile] produces these texts in order, each
    followed by one line feed, the last one included; for no page at all it
    produces the empty string. *)
Theorem C6_pages_joined_in_order
        (pdf : PDFDocumentProxy) (texts : list jsstring) :
  numPages pdf = List.length texts ->
  (forall j, (j < List.length texts)%nat ->
             option_map pageText (textContent_at pdf (S j))
             = nth_error texts j) ->
  read_pages pdf = Some (Spec.assemble texts) /\
  (texts = [] -> read_pages pdf = Some []).
Proof.
  intros Hn H.
  assert (E : read_pages pdf = Some (Spec.assemble texts)).
  { unfold read_pages. rewrite Hn.
    now rewrite (page_loop_assemble pdf texts 1%nat [] H). }
  split; [exact E|]. intros ->. exact E.
Qed.

(** Every sequence of page texts is the content of some document. *)
Lemma read_pages_pdf_of_texts (texts : list jsstring) :
  read_pages (pdf_of_texts texts) = Some (Spec.assemble texts).
Proof.
  unfold read_pages. cbn [numPages pdf_of_texts].
  rewrite (page_loop_assemble (pdf_of_texts texts) texts 1%nat []);
    [reflexivity|].
  intros j Hj. unfold textContent_at. cbn [Nat.add getPage pdf_of_texts].
  destruct (nth_error texts j) as [t|] eqn:E.
  - cbn [option_map page_of_text getTextContent]. unfold pageText.
    cbn [items filter has_str map str List.concat]. now rewrite app_nil_r.
  - apply nth_error_None in E. lia.
Qed.

Lemma C6_pages_joined_in_order_witness :
  read_pages pdf_AB = Some [65; 10; 66; 10].
Proof.
  apply (C6_pages_joined_in_order pdf_AB [js "A"; js "B"]).
  - reflexivity.
  - intros [|[|j]] Hj; [reflexivity | reflexivity | simpl in Hj; lia].
Defined.

(** The state [handleFile] leaves when the document is read to the end. *)
Lemma handleFile_success
      (getDocument : list Z -> option PDFDocumentProxy)
      (f : File) (st : State) (fullText : jsstring) :
  type f = js "application/pdf" ->
  extract getDocument f = Some fullText ->
  handleFile getDocument (Some f) st
  = {| isDragging := isDragging st; isLoading := false; fileName := name f;
       pdfText := fullText; errorMessage := [] |}.
Proof.
  intros Ht He. unfold handleFile, jsstring_eqb. rewrite Ht, He.
  destruct (list_eq_dec Z.eq_dec _ _) as [_|n]; [reflexivity|].
  now contradiction n.
Qed.

(** ** C7: the two punctuation sets *)

Lemma punctuation_counts (text : jsstring) (r : StatsResult) :
  stats text = Some r ->
  chinesePunctuation r = count (member chinesePunctuation_set) text /\
  englishPunctuation r = count (member englishPunctuation_set) text.
Proof.
  intros H.
  destruct (stats_fields text r H) as (_ & _ & _ & _ & -> & -> & _).
  split; apply count_ext;
    [apply chinesePunctuation_class | apply englishPunctuation_class].
Qed.

Lemma chinesePunctuation_set_bmp (c : Z) :
  member chinesePunctuation_set c = true ->
  c < 0x10000 /\ Utf16.is_surrogate c = false.
Proof.
  rewrite member_In. unfold chinesePunctuation_set. cbn [In].
  intros H. repeat destruct H as [<-|H]; try (now split); contradiction.
Qed.

Lemma englishPunctuation_set_bmp (c : Z) :
  member englishPunctuation_set c = true ->
  c < 0x10000 /\ Utf16.is_surrogate c = false.
Proof.
  rewrite member_In. unfold englishPunctuation_set. cbn [In].
  intros H. repeat destruct H as [<-|H]; try (now split); contradiction.
Qed.

(** C7 does not hold of the code.  A page holding the left curly quotation
    mark U+201C, a member of the Chinese set, has [chinesePunctuation] 0;
    a page holding the ASCII quotation mark U+0022, no member of that set,
    has [chinesePunctuation] 1.  The class of [chinesePunctuation] holds
    the two ASCII quotation marks, each twice, at the place of the two
    pairs of curly quotation marks. *)
Theorem C7_chinesePunctuation_miscounts :
  (count (member Spec.chinese_punctuation) (code_points "“" ++ [0x000A])
   = 1%nat /\
   option_map chinesePunctuation (stats (js "“" ++ LF)) = Some 0%nat) /\
  (count (member Spec.chinese_punctuation) (code_points dquote ++ [0x000A])
   = 0%nat /\
   option_map chinesePunctuation (stats (js dquote ++ LF)) = Some 1%nat).
Proof. repeat split; reflexivity. Qed.

(** What the two punctuation fields count, in code points: the members of
    the two classes as the pattern texts give them. *)
Lemma punctuation_in_code_points (cps : list Z) :
  Forall Utf16.scalar cps ->
  match stats (Utf16.encode cps) with
  | Some r =>
    chinesePunctuation r = count (member chinesePunctuation_set) cps /\
    englishPunctuation r = count (member englishPunctuation_set) cps
  | None => cps = []
  end.
Proof.
  intros Hcps. destruct (stats (Utf16.encode cps)) as [r|] eqn:E.
  - destruct (punctuation_counts _ r E) as [-> ->].
    split; apply count_encode; trivial;
      [apply chinesePunctuation_set_bmp | apply englishPunctuation_set_bmp].
  - apply encode_nil_inv, stats_none, E.
Qed.

Lemma scalarb_scalar (cps : list Z) :
  forallb scalarb cps = true -> Forall Utf16.scalar cps.
Proof.
  rewrite forallb_forall, Forall_forall. intros H cp Hin.
  specialize (H cp Hin). unfold scalarb in H. unfold Utf16.scalar.
  revert H. bool_prop. intros [[H1 H2] H3]. auto.
Qed.

Lemma punctuation_in_code_points_witness :
  Forall Utf16.scalar quoted_text /\
  match stats (Utf16.encode quoted_text) with
  | Some r => chinesePunctuation r = 3%nat /\ englishPunctuation r = 4%nat
  | None => False
  end.
Proof.
  assert (H : Forall Utf16.scalar quoted_text)
    by (apply scalarb_scalar; reflexivity).
  split; [exact H|].
  generalize (punctuation_in_code_points quoted_text H).
  vm_compute. exact (fun W => W).
Defined.

(** ** C8: line breaks *)

Lemma lineBreaks_le_spaces (c : Z) :
  atom_matches EscapeN c = true -> atom_matches EscapeS c = true.
Proof.
  cbn [atom_matches]. intros H. apply Z.eqb_eq in H. now subst.
Qed.

(** C8: [lineBreaks] is the number of occurrences of U+000A, it never
    exceeds [spaces], the carriage return and the separators U+2028 and
    U+2029 count as whitespace and not as line breaks, and the text
    a TAB b LF c has [spaces] 2 and [lineBreaks] 1. *)
Theorem C8_lineBreaks :
  (forall text : jsstring,
      match stats text with
      | Some r =>
        lineBreaks r = count (fun c => c =? 0x000A) text /\
        (lineBreaks r <= spaces r)%nat
      | None => text = []
      end) /\
  Forall (fun c => option_map (fun r => (spaces r, lineBreaks r)) (stats [c])
                   = Some (1%nat, 0%nat))
         [0x000D; 0x2028; 0x2029] /\
  option_map (fun r => (spaces r, lineBreaks r))
             (stats (js "a" ++ [0x0009] ++ js "b" ++ [0x000A] ++ js "c"))
  = Some (2%nat, 1%nat).
Proof.
  split; [|split; [repeat constructor | reflexivity]].
  intros text. destruct (stats text) as [r|] eqn:E; [|now apply stats_none].
  destruct (stats_fields text r E)
    as (_ & _ & _ & _ & _ & _ & -> & -> & _).
  split; [reflexivity | apply count_le, lineBreaks_le_spaces].
Qed.

(** ** C9: words and letters *)

Section ScanPlus.

Variable a : Atom.

Lemma scan_plus_run (r : list Z) :
  Forall (fun c => atom_matches a c = true) r ->
  forall (cur s : jsstring),
    scan_plus a cur (r ++ s) = scan_plus a (rev r ++ cur) s.
Proof.
  induction 1 as [|c r Hc _ IH]; intros cur s; [reflexivity|].
  cbn [app scan_plus]. rewrite Hc, IH.
  cbn [rev]. now rewrite <- app_assoc.
Qed.

Lemma scan_plus_flush (cur s : jsstring) :
  cur <> [] -> Spec.starts_outside (atom_matches a) s ->
  scan_plus a cur s = rev cur :: scan_plus a [] s.
Proof.
  intros Hcur Hs. destruct s as [|c s]; cbn [scan_plus].
  - destruct cur; [contradiction | reflexivity].
  - cbn in Hs. rewrite Hs.
    destruct cur; [contradiction | reflexivity].
Qed.

(** The maximal runs are unique: they are the matches of the scan. *)
Lemma Runs_scan_plus (s : jsstring) (rs : list jsstring) :
  Spec.Runs (atom_matches a) s rs -> scan_plus a [] s = rs.
Proof.
  induction 1 as [|c s rs Hc _ IH|r s rs Hr Hall Hs _ IH].
  - reflexivity.
  - cbn [scan_plus]. now rewrite Hc.
  - rewrite (scan_plus_run r Hall), app_nil_r.
    rewrite scan_plus_flush, rev_involutive, IH; trivial.
    intros E. apply Hr. rewrite <- (rev_involutive r), E. reflexivity.
Qed.

(** The scan started inside a match: the match is completed by the
    longest prefix of [s] the atom accepts. *)
Lemma scan_plus_Runs_gen (s : jsstring) :
  Spec.Runs (atom_matches a) s (scan_plus a [] s) /\
  forall cur, cur <> [] ->
    exists r0 s1,
      s = r0 ++ s1 /\ Forall (fun c => atom_matches a c = true) r0 /\
      Spec.starts_outside (atom_matches a) s1 /\
      scan_plus a cur s = (rev cur ++ r0) :: scan_plus a [] s1 /\
      Spec.Runs (atom_matches a) s1 (scan_plus a [] s1).
Proof.
  induction s as [|c s [IH0 IH1]].
  - split; [constructor|]. intros cur Hcur. exists [], [].
    repeat split; try constructor.
    cbn [scan_plus]. rewrite app_nil_r.
    destruct cur; [contradiction | reflexivity].
  - destruct (atom_matches a c) eqn:Hc.
    + destruct (IH1 [c] ltac:(discriminate))
        as (r0 & s1 & -> & Hr0 & Hs1 & E & HR).
      split.
      * cbn [scan_plus]. rewrite Hc, E. cbn [rev app].
        apply (Spec.Runs_run (atom_matches a) (c :: r0) s1); auto. discriminate.
      * intros cur Hcur.
        destruct (IH1 (c :: cur) ltac:(discriminate))
          as (r0' & s1' & E' & Hr0' & Hs1' & Escan & HR').
        exists (c :: r0'), s1'. repeat split; auto.
        -- cbn [app]. now rewrite E'.
        -- cbn [scan_plus]. rewrite Hc, Escan. cbn [rev].
           now rewrite <- app_assoc.
    + assert (HR : Spec.Runs (atom_matches a) (c :: s) (scan_plus a [] (c :: s))).
      { cbn [scan_plus]. rewrite Hc. now constructor. }
      split; [exact HR|]. intros cur Hcur. exists [], (c :: s).
      repeat split; auto.
      rewrite app_nil_r. apply scan_plus_flush; auto.
Qed.

Lemma scan_plus_Runs (s : jsstring) : Spec.Runs (atom_matches a) s (scan_plus a [] s).
Proof. apply scan_plus_Runs_gen. Qed.

End ScanPlus.

Lemma Runs_ext (p q : Z -> bool) (s : list Z) (rs : list (list Z)) :
  (forall c, p c = q c) -> Spec.Runs p s rs -> Spec.Runs q s rs.
Proof.
  intros H. induction 1 as [|c s rs Hc _ IH|r s rs Hr Hall Hs _ IH].
  - constructor.
  - constructor; [now rewrite <- H | exact IH].
  - constructor; trivial.
    + eapply Forall_impl; [|exact Hall]. intros c Hc. now rewrite <- H.
    + destruct s; [exact I|]. cbn in *. now rewrite <- H.
Qed.

(** The elements inside [p] are those of the runs. *)
Lemma Runs_count (p : Z -> bool) (s : list Z) (rs : list (list Z)) :
  Spec.Runs p s rs -> count p s = List.length (List.concat rs).
Proof.
  induction 1 as [|c s rs Hc _ IH|r s rs Hr Hall Hs _ IH].
  - reflexivity.
  - now rewrite count_cons, Hc.
  - rewrite count_app, IH. cbn [List.concat]. rewrite length_app. f_equal.
    unfold count. clear -Hall. induction Hall as [|c r Hc _ IH];
      [reflexivity|]. cbn [filter]. rewrite Hc. cbn [List.length]. now f_equal.
Qed.

Lemma Runs_nonempty (p : Z -> bool) (s : list Z) (rs : list (list Z)) :
  Spec.Runs p s rs -> Forall (fun r => r <> []) rs.
Proof. induction 1; auto. Qed.

(** Non-empty lists are as many as their elements together exactly when
    each has one element. *)
Lemma length_concat_nonempty (rs : list (list Z)) :
  Forall (fun r => r <> []) rs ->
  (List.length rs <= List.length (List.concat rs))%nat /\
  (List.length rs = List.length (List.concat rs)
   <-> Forall (fun r => List.length r = 1%nat) rs).
Proof.
  induction 1 as [|r rs Hr _ [IHle IHeq]].
  - split; [reflexivity|]. split; [constructor | reflexivity].
  - cbn [List.concat List.length]. rewrite length_app.
    assert (1 <= List.length r)%nat by (destruct r; [contradiction|simpl; lia]).
    split; [lia|]. split.
    + intros E. constructor; [lia | apply IHeq; lia].
    + intros HF. inversion HF as [|? ? H1 Hrest]; subst.
      apply IHeq in Hrest. lia.
Qed.

(** C9: the matches of [englishWords] are the maximal runs of ASCII Latin
    letters of the text; their number is at most [englishLetters], the
    number of ASCII Latin letters, and equal to it exactly when every run
    has length 1. *)
Theorem C9_words_le_letters (text : jsstring) :
  (exists runs, Spec.Runs latin_letter text runs) /\
  forall runs, Spec.Runs latin_letter text runs ->
    match stats text with
    | Some r =>
      englishWords r = List.length runs /\
      englishLetters r = count latin_letter text /\
      (englishWords r <= englishLetters r)%nat /\
      (englishWords r = englishLetters r
       <-> Forall (fun run => List.length run = 1%nat) runs)
    | None => text = []
    end.
Proof.
  set (a := char_class englishLetters_src).
  assert (Hext : forall c, atom_matches a c = latin_letter c)
    by apply englishLetters_class.
  split.
  - exists (scan_plus a [] text).
    apply (Runs_ext _ _ _ _ Hext), scan_plus_Runs.
  - intros runs HR.
    destruct (stats text) as [r|] eqn:E; [|now apply stats_none].
    destruct (stats_fields text r E) as (_ & Hw & Hl & _).
    fold a in Hw, Hl.
    assert (HR' : Spec.Runs (atom_matches a) text runs).
    { apply (Runs_ext latin_letter); [|exact HR]. intros c. now rewrite Hext. }
    rewrite (Runs_scan_plus a text runs HR') in Hw.
    rewrite (count_ext _ _ text Hext) in Hl.
    pose proof (Runs_count _ _ _ HR) as Hc.
    destruct (length_concat_nonempty runs (Runs_nonempty _ _ _ HR))
      as [Hle Heq].
    rewrite Hw, Hl, Hc. repeat split; trivial; apply Heq.
Qed.

Lemma C9_words_le_letters_witness :
  Spec.Runs latin_letter (js "ab c") [js "ab"; js "c"] /\
  option_map (fun r => (englishWords r, englishLetters r)) (stats (js "ab c"))
  = Some (2%nat, 3%nat) /\
  ~ Forall (fun run => List.length run = 1%nat) [js "ab"; js "c"].
Proof.
  assert (HR : Spec.Runs latin_letter (js "ab c") [js "ab"; js "c"]).
  { apply (Spec.Runs_run latin_letter [97; 98] [32; 99]);
      [discriminate | repeat constructor | reflexivity |].
    apply Spec.Runs_skip; [reflexivity|].
    apply (Spec.Runs_run latin_letter [99] []);
      [discriminate | repeat constructor | exact I | constructor]. }
  split; [exact HR|]. split; [reflexivity|].
  generalize (proj2 (C9_words_le_letters (js "ab c")) _ HR).
  vm_compute. intros (_ & _ & _ & Hiff) HF.
  apply Hiff in HF. discriminate HF.
Defined.

(** ** C10: a file that is not a PDF *)

(** C10: for a file whose type is not 'application/pdf', [handleFile] only
    stores the error message: the file name, the text and therefore the
    statistics are those held before the call. *)
Theorem C10_rejected_file_keeps_results
        (getDocument : list Z -> option PDFDocumentProxy)
        (f : File) (st : State) :
  type f <> js "application/pdf" ->
  let st' := handleFile getDocument (Some f) st in
  st' = set_errorMessage (js "请上传 PDF 文件") st /\
  fileName st' = fileName st /\
  pdfText st' = pdfText st /\
  stats (pdfText st') = stats (pdfText st) /\
  isLoading st' = isLoading st /\
  isDragging st' = isDragging st.
Proof.
  intros Ht. unfold handleFile, jsstring_eqb.
  destruct (list_eq_dec Z.eq_dec (type f) (js "application/pdf")) as [e|_];
    [contradiction|].
  cbn [negb]. repeat split.
Qed.

Lemma C10_rejected_file_keeps_results_witness :
  type notes_txt <> js "application/pdf" /\
  let st' := handleFile (fun _ => None) (Some notes_txt) showing_report in
  fileName st' = js "report.pdf" /\
  pdfText st' = [72; 105; 10] /\
  stats (pdfText st') = stats [72; 105; 10].
Proof.
  assert (H : type notes_txt <> js "application/pdf") by discriminate.
  split; [exact H|].
  destruct (C10_rejected_file_keeps_results (fun _ => None) notes_txt
              showing_report H) as (_ & Hn & Ht & Hs & _).
  cbv zeta. rewrite Hn, Ht. repeat split.
Defined.

(** * Further properties of the component *)

Import Component.

(** ** Reading the pages *)

Lemma page_loop_none_iff (pdf : PDFDocumentProxy) (n : nat) :
  forall (i : nat) (fullText : jsstring),
    page_loop pdf n i fullText = None
    <-> exists j, (j < n)%nat /\ textContent_at pdf (i + j) = None.
Proof.
  induction n as [|k IH]; intros i fullText; cbn [page_loop].
  - split; [discriminate | intros (j & Hj & _); lia].
  - destruct (textContent_at pdf i) as [tc|] eqn:E.
    + unfold textContent_at in E.
      destruct (getPage pdf i) as [page|] eqn:Eg; [|discriminate].
      rewrite E, IH. split; intros (j & Hj & Hn).
      * exists (S j). split; [lia|]. now rewrite Nat.add_succ_r.
      * destruct j as [|j].
        -- rewrite Nat.add_0_r in Hn. unfold textContent_at in Hn.
           rewrite Eg in Hn. congruence.
        -- exists j. split; [lia|]. now rewrite Nat.add_succ_r in Hn.
    + split; [|intros _].
      * intros _. exists 0%nat. split; [lia|]. now rewrite Nat.add_0_r.
      * unfold textContent_at in E.
        destruct (getPage pdf i) as [page|]; [|reflexivity].
        now rewrite E.
Qed.

(** The texts of the pages 1..n, [[]] for a page that cannot be read. *)
Lemma read_pages_some_inv (pdf : PDFDocumentProxy) (text : jsstring) :
  read_pages pdf = Some text ->
  exists texts,
    List.length texts = numPages pdf /\
    (forall j, (j < List.length texts)%nat ->
               option_map pageText (textContent_at pdf (S j))
               = nth_error texts j) /\
    text = Spec.assemble texts.
Proof.
  intros H.
  set (text_of := fun j => match textContent_at pdf (S j) with
                           | Some tc => pageText tc
                           | None => []
                           end).
  set (texts := map text_of (seq 0 (numPages pdf))).
  assert (Hlen : List.length texts = numPages pdf)
    by (unfold texts; now rewrite length_map, length_seq).
  assert (Hpages : forall j, (j < List.length texts)%nat ->
             option_map pageText (textContent_at pdf (S j))
             = nth_error texts j).
  { intros j Hj. unfold texts. rewrite nth_error_map, nth_error_seq.
    rewrite Hlen in Hj. apply Nat.ltb_lt in Hj. rewrite Hj.
    cbn [option_map Nat.add]. unfold text_of.
    destruct (textContent_at pdf (S j)) as [tc|] eqn:E; [reflexivity|].
    exfalso. apply Nat.ltb_lt in Hj.
    assert (Hn : read_pages pdf = None).
    { apply page_loop_none_iff. exists j. split; [exact Hj | exact E]. }
    congruence. }
  exists texts. repeat split; trivial.
  unfold read_pages in H. rewrite <- Hlen in H.
  rewrite (page_loop_assemble pdf texts 1%nat [] Hpages) in H.
  cbn [app] in H. congruence.
Qed.

(** X1: the page loop fails exactly when one of the pages 1..numPages
    cannot be read; pages outside that range are never asked for. *)
Theorem read_pages_fails_iff_unreadable_page (pdf : PDFDocumentProxy) :
  read_pages pdf = None
  <-> exists i, (1 <= i <= numPages pdf)%nat /\ textContent_at pdf i = None.
Proof.
  unfold read_pages. rewrite page_loop_none_iff. split.
  - intros (j & Hj & Hn). exists (S j). split; [lia | exact Hn].
  - intros (i & Hi & Hn). destruct i as [|j]; [lia|].
    exists j. split; [lia | exact Hn].
Qed.

Lemma read_pages_fails_iff_unreadable_page_witness :
  (1 <= 2 <= numPages pdf_torn)%nat /\
  textContent_at pdf_torn 2 = None /\
  read_pages pdf_torn = None.
Proof.
  assert (H1 : (1 <= 2 <= numPages pdf_torn)%nat) by (simpl; lia).
  assert (H2 : textContent_at pdf_torn 2 = None) by reflexivity.
  split; [exact H1|]. split; [exact H2|].
  apply (proj2 (read_pages_fails_iff_unreadable_page pdf_torn)).
  exists 2%nat. split; [exact H1 | exact H2].
Defined.

(** ** What [handleFile] leaves behind *)

Lemma pending_pdf (f : File) :
  type f = js "application/pdf" -> pending (Some f) = Some f.
Proof.
  intros Ht. unfold pending, jsstring_eqb. rewrite Ht.
  destruct (list_eq_dec Z.eq_dec _ _) as [_|n]; [reflexivity|].
  now contradiction n.
Qed.

Lemma handleFile_failure
      (getDocument : list Z -> option PDFDocumentProxy)
      (f : File) (st : State) :
  type f = js "application/pdf" ->
  extract getDocument f = None ->
  handleFile getDocument (Some f) st
  = {| isDragging := isDragging st; isLoading := false; fileName := name f;
       pdfText := [];
       errorMessage := js "PDF 解析失败，请确保文件未损坏" |}.
Proof.
  intros Ht He. unfold handleFile, jsstring_eqb. rewrite Ht, He.
  destruct (list_eq_dec Z.eq_dec _ _) as [_|n]; [reflexivity|].
  now contradiction n.
Qed.

Lemma parse_failed_not_empty : js "PDF 解析失败，请确保文件未损坏" <> [].
Proof. discriminate. Qed.

(** X2: a load that nothing interrupts.  When the settlement of
    [handleFile] on a file of type application/pdf finds the state as its
    synchronous part left it (no other load and no other handler wrote a
    cell in between), the loading flag is off and the file name is that of
    the file; either the text is the extracted one and no error is held,
    or the text is empty and the parse-failure message is held.  Nothing
    of the text or message held before the call remains, and the template
    does not show the error and the statistics together. *)
Theorem handleFile_pdf_outcome
        (getDocument : list Z -> option PDFDocumentProxy)
        (f : File) (st : State) :
  type f = js "application/pdf" ->
  let st' :=
    handleFile_settle getDocument f (handleFile_begin (Some f) st) in
  st' = handleFile getDocument (Some f) st /\
  isLoading st' = false /\ fileName st' = name f /\
  match extract getDocument f with
  | Some fullText => pdfText st' = fullText /\ errorMessage st' = []
  | None =>
    pdfText st' = [] /\
    errorMessage st' = js "PDF 解析失败，请确保文件未损坏"
  end /\
  (error (render st') = None \/ results (render st') = None).
Proof.
  intros Ht. cbv zeta.
  assert (Eq : handleFile_settle getDocument f (handleFile_begin (Some f) st)
               = handleFile getDocument (Some f) st).
  { unfold handleFile_begin. rewrite (pending_pdf f Ht).
    unfold handleFile_settle, handleFile, jsstring_eqb. rewrite Ht.
    destruct (list_eq_dec Z.eq_dec _ _) as [_|n]; [reflexivity|].
    now contradiction n. }
  rewrite Eq. split; [reflexivity|].
  destruct (extract getDocument f) as [t|] eqn:E.
  - rewrite (handleFile_success getDocument f st t Ht E).
    repeat split. left. reflexivity.
  - rewrite (handleFile_failure getDocument f st Ht E).
    repeat split. right. reflexivity.
Qed.

Lemma handleFile_pdf_outcome_witness :
  type broken_pdf = js "application/pdf" /\
  pdfText showing_report = [72; 105; 10] /\
  let st' :=
    handleFile_settle (fun _ => None) broken_pdf
      (handleFile_begin (Some broken_pdf) showing_report) in
  fileName st' = js "broken.pdf" /\ pdfText st' = [] /\
  errorMessage st' = js "PDF 解析失败，请确保文件未损坏".
Proof.
  assert (H : type broken_pdf = js "application/pdf") by reflexivity.
  split; [exact H|]. split; [reflexivity|].
  destruct (handleFile_pdf_outcome (fun _ => None) broken_pdf
              showing_report H) as (_ & _ & Hn & Ho & _).
  cbv zeta. rewrite Hn. split; [reflexivity|]. exact Ho.
Defined.

(** X3: when one page of the document cannot be read, the settlement of
    [handleFile] stores no text: whatever the state at that moment, the
    text and the file name are left as they are, the parse-failure message
    is set and the loading flag cleared, so that nothing of the pages read
    before the failure is kept.  When the state is as the synchronous part
    of this load left it, the text is therefore empty and no statistics
    exist. *)
Theorem unreadable_page_stores_no_text
        (getDocument : list Z -> option PDFDocumentProxy)
        (f : File) (data : list Z) (pdf : PDFDocumentProxy) (i : nat) :
  arrayBuffer f = Some data ->
  getDocument data = Some pdf ->
  (1 <= i <= numPages pdf)%nat ->
  textContent_at pdf i = None ->
  (forall st : State,
      let st' := handleFile_settle getDocument f st in
      pdfText st' = pdfText st /\ fileName st' = fileName st /\
      errorMessage st' = js "PDF 解析失败，请确保文件未损坏" /\
      isLoading st' = false) /\
  (type f = js "application/pdf" ->
   forall st : State,
     let st' :=
       handleFile_settle getDocument f (handleFile_begin (Some f) st) in
     pdfText st' = [] /\ stats (pdfText st') = None).
Proof.
  intros Hb Hd Hi Hn.
  assert (E : extract getDocument f = None).
  { unfold extract. rewrite Hb, Hd. unfold read_pages.
    apply page_loop_none_iff. destruct i as [|j]; [lia|].
    exists j. split; [lia | exact Hn]. }
  split.
  - intros st. unfold handleFile_settle. rewrite E. repeat split.
  - intros Ht st. unfold handleFile_begin, handleFile_settle.
    rewrite (pending_pdf f Ht), E. split; reflexivity.
Qed.

Lemma unreadable_page_stores_no_text_witness :
  textContent_at pdf_torn 1 = Some {| items := [TextItem (js "A")] |} /\
  textContent_at pdf_torn 2 = None /\
  pdfText (handleFile_settle sample_getDocument torn_pdf showing_report)
  = pdfText showing_report /\
  pdfText (handleFile_settle sample_getDocument torn_pdf
             (handleFile_begin (Some torn_pdf) showing_report)) = [].
Proof.
  split; [reflexivity|]. split; [reflexivity|].
  destruct (unreadable_page_stores_no_text sample_getDocument torn_pdf
              [37; 80] pdf_torn 2 eq_refl eq_refl
              (conj (le_S 1 1 (le_n 1)) (le_n 2)) eq_refl) as [Hany Hown].
  split.
  - exact (proj1 (Hany showing_report)).
  - exact (proj1 (Hown eq_refl showing_report)).
Defined.

(** ** The two halves of [handleFile] *)




(** X14: a reset does not cancel a load still in progress.  Two loads
    overlap; the second settles first, so that the upload zone shows its
    file name and the reset button; the user resets; the first load then
    succeeds.  Its text is stored although the file name is empty: the
    upload zone shows the choose-file state, no error is shown, and the
    statistics rendered are those of that text (present when it is not
    empty). *)
Theorem reset_does_not_cancel_pending_load
        (getDocument : list Z -> option PDFDocumentProxy)
        (f1 f2 : File) (t1 : jsstring) (st : State) :
  type f1 = js "application/pdf" ->
  type f2 = js "application/pdf" ->
  name f2 <> [] ->
  extract getDocument f1 = Some t1 ->
  let shown :=
    handleFile_settle getDocument f2
      (handleFile_begin (Some f2) (handleFile_begin (Some f1) st)) in
  let st' := handleFile_settle getDocument f1 (reset shown) in
  reset_button shown = true /\
  fileName st' = [] /\ pdfText st' = t1 /\
  render st'
  = {| upload := ChooseFile; error := None; results := stats t1 |} /\
  (t1 <> [] -> results (render st') <> None).
Proof.
  intros H1 H2 Hname E1. cbv zeta.
  unfold handleFile_begin, handleFile_settle.
  rewrite (pending_pdf f1 H1), (pending_pdf f2 H2), E1.
  split.
  - unfold reset_button, render.
    destruct (extract getDocument f2); cbn; destruct (name f2);
      try reflexivity; contradiction.
  - destruct (extract getDocument f2); repeat split;
      cbn; intros Hne Hs; apply stats_none in Hs; contradiction.
Qed.

Lemma reset_does_not_cancel_pending_load_witness :
  name other_pdf <> [] /\
  extract sample_getDocument report_pdf = Some [65; 10; 66; 10] /\
  let shown :=
    handleFile_settle sample_getDocument other_pdf
      (handleFile_begin (Some other_pdf)
         (handleFile_begin (Some report_pdf) initial)) in
  let st' := handleFile_settle sample_getDocument report_pdf (reset shown) in
  reset_button shown = true /\ fileName st' = [] /\
  pdfText st' = [65; 10; 66; 10].
Proof.
  assert (Hn : name other_pdf <> []) by discriminate.
  split; [exact Hn|]. split; [reflexivity|].
  destruct (reset_does_not_cancel_pending_load sample_getDocument
              report_pdf other_pdf [65; 10; 66; 10] initial
              eq_refl eq_refl Hn eq_refl) as (Hb & Hf & Ht & _).
  cbv zeta. split; [exact Hb|]. split; [exact Hf | exact Ht].
Defined.

(** ** Sequences of events *)

Lemma handleFile_isDragging
      (getDocument : list Z -> option PDFDocumentProxy)
      (file : option File) (st : State) :
  isDragging (handleFile getDocument file st) = isDragging st.
Proof.
  destruct file as [f|]; unfold handleFile; [|reflexivity].
  destruct (negb (jsstring_eqb (type f) (js "application/pdf")));
    [reflexivity|].
  destruct (extract getDocument f); reflexivity.
Qed.

Lemma run_snoc (getDocument : list Z -> option PDFDocumentProxy)
      (es : list Event) (e : Event) (st : State) :
  run getDocument (es ++ [e]) st
  = handle getDocument (run getDocument es st) e.
Proof. unfold run. now rewrite fold_left_app. Qed.

Lemma submitted_snoc (es : list Event) (e : Event) (f : File) :
  In f (submitted es) -> In f (submitted (es ++ [e])).
Proof.
  unfold submitted. rewrite flat_map_app, in_app_iff. now left.
Qed.

Lemma submitted_last (es : list Event) (e : Event) (f : File) :
  e = FileInput (Some f) \/ e = Drop (Some f) ->
  In f (submitted (es ++ [e])).
Proof.
  intros H. unfold submitted. rewrite flat_map_app, in_app_iff. right.
  destruct H as [-> | ->]; simpl; now left.
Qed.

Lemma handleFile_rejected
      (getDocument : list Z -> option PDFDocumentProxy)
      (f : File) (st : State) :
  type f <> js "application/pdf" ->
  handleFile getDocument (Some f) st
  = set_errorMessage (js "请上传 PDF 文件") st.
Proof.
  intros Ht. unfold handleFile, jsstring_eqb.
  destruct (list_eq_dec Z.eq_dec (type f) (js "application/pdf"));
    [contradiction | reflexivity].
Qed.

Section Sequential.

Variable getDocument : list Z -> option PDFDocumentProxy.

Lemma settled_more (es : list Event) (e : Event) (st : State) :
  settled getDocument es st -> settled getDocument (es ++ [e]) st.
Proof.
  intros (Hl & Ht & He). repeat split; trivial.
  intros Hne. destruct (Ht Hne) as (f & Hin & H).
  exists f. split; [now apply submitted_snoc | exact H].
Qed.

Lemma settled_isDragging (es : list Event) (b : bool) (st : State) :
  settled getDocument es st ->
  settled getDocument es (set_isDragging b st).
Proof. intros H. exact H. Qed.

Lemma settled_reset (es : list Event) (st : State) :
  settled getDocument es st -> settled getDocument es (reset st).
Proof.
  intros (Hl & _ & _). repeat split; trivial.
  - intros Hne. now contradiction Hne.
  - now left.
Qed.

Lemma settled_handleFile (es : list Event) (e : Event) (f : File)
      (st : State) :
  e = FileInput (Some f) \/ e = Drop (Some f) ->
  settled getDocument es st ->
  settled getDocument (es ++ [e]) (handleFile getDocument (Some f) st).
Proof.
  intros He Hst.
  destruct (list_eq_dec Z.eq_dec (type f) (js "application/pdf"))
    as [Ht|Ht].
  - destruct (extract getDocument f) as [t|] eqn:E.
    + rewrite (handleFile_success getDocument f st t Ht E).
      repeat split; cbn; [|now left].
      intros _. exists f. repeat split; trivial.
      now apply submitted_last.
    + rewrite (handleFile_failure getDocument f st Ht E).
      repeat split; cbn; [|now right; right].
      intros Hne. now contradiction Hne.
  - rewrite (handleFile_rejected getDocument f st Ht).
    destruct (settled_more es e st Hst) as (Hl & Htxt & _).
    repeat split; trivial. right. now left.
Qed.

(** X6: when every load has settled before the next event is handled,
    then after any sequence of file inputs, drags, drops and resets no load
    is in progress, and a text that is held (so that statistics are shown)
    is the text extracted from one of the submitted PDF files, whose name
    is the file name held; the error is empty or one of the two messages. *)
Theorem sequential_runs_are_settled (es : list Event) :
  settled getDocument es (run getDocument es initial).
Proof.
  induction es as [|e es IH] using rev_ind.
  - repeat split; cbn; [|now left]. intros H. now contradiction H.
  - rewrite run_snoc.
    destruct e as [[f|] | | | [f|] | ]; cbn [handle onFileInput onDrop
      onDragOver onDragLeave].
    + apply settled_handleFile; [now left | exact IH].
    + now apply settled_more.
    + now apply settled_isDragging, settled_more.
    + now apply settled_isDragging, settled_more.
    + apply settled_handleFile; [now right|].
      now apply settled_isDragging.
    + now apply settled_isDragging, settled_more.
    + now apply settled_reset, settled_more.
Qed.

(** X7: [isDragging] is written by the drag handlers alone: a drop leaves
    it false whatever [handleFile] then does with the file, a drag-over
    leaves it true, and file inputs and resets leave it as it was. *)
Theorem isDragging_follows_drag_events
        (es : list Event) (file : option File) (st : State) :
  isDragging (run getDocument (es ++ [Drop file]) st) = false /\
  isDragging (run getDocument (es ++ [DragLeave]) st) = false /\
  isDragging (run getDocument (es ++ [DragOver]) st) = true /\
  isDragging (run getDocument (es ++ [FileInput file]) st)
  = isDragging (run getDocument es st) /\
  isDragging (run getDocument (es ++ [Reset]) st)
  = isDragging (run getDocument es st).
Proof.
  rewrite !run_snoc. cbn [handle]. unfold onDrop, onFileInput.
  destruct file as [f|]; rewrite ?handleFile_isDragging; repeat split.
Qed.

End Sequential.

Lemma sequential_runs_are_settled_witness :
  let es := [DragOver; Drop (Some report_pdf); FileInput (Some notes_txt)] in
  let st := run sample_getDocument es initial in
  pdfText st <> [] /\
  exists f, In f (submitted es) /\ fileName st = name f /\
            extract sample_getDocument f = Some (pdfText st).
Proof.
  cbv zeta.
  destruct (sequential_runs_are_settled sample_getDocument
              [DragOver; Drop (Some report_pdf); FileInput (Some notes_txt)])
    as (_ & H & _).
  assert (Hne : pdfText (run sample_getDocument
                  [DragOver; Drop (Some report_pdf);
                   FileInput (Some notes_txt)] initial) <> [])
    by discriminate.
  split; [exact Hne|].
  destruct (H Hne) as (f & Hin & _ & Hn & He).
  exists f. repeat split; assumption.
Defined.

(** ** The statistics of a concatenation *)

Lemma counted_fields (text : jsstring) :
  counted chineseChars text
  = count (atom_matches (char_class chineseChars_src)) text /\
  counted englishWords text
  = List.length (scan_plus (char_class englishLetters_src) [] text) /\
  counted englishLetters text
  = count (atom_matches (char_class englishLetters_src)) text /\
  counted numbers text = count (atom_matches (char_class numbers_src)) text /\
  counted chinesePunctuation text
  = count (atom_matches (char_class chinesePunctuation_src)) text /\
  counted englishPunctuation text
  = count (atom_matches (char_class englishPunctuation_src)) text /\
  counted spaces text = count (atom_matches EscapeS) text /\
  counted lineBreaks text = count (atom_matches EscapeN) text /\
  counted totalChars text = List.length text /\
  counted totalCharsNoSpace text
  = count (fun c => negb (atom_matches EscapeS c)) text.
Proof.
  unfold counted. destruct (stats text) as [r|] eqn:E.
  - exact (stats_fields text r E).
  - apply stats_none in E. subst text. repeat split.
Qed.

Section WordsOfConcatenation.

Variable a : Atom.

Lemma ends_inside_cons (p : Z -> bool) (b : bool) (c : Z) (s : list Z) :
  ends_inside p b (c :: s) = ends_inside p (p c) s.
Proof. reflexivity. Qed.

Lemma ends_inside_last (p : Z -> bool) (d : Z) (s : list Z) :
  forall b, ends_inside p b s = match s with [] => b | _ => p (last s d) end.
Proof.
  induction s as [|c s IH]; intros b; [reflexivity|].
  rewrite ends_inside_cons, IH. destruct s; reflexivity.
Qed.

(** Inside a match the number of matches to come does not depend on what
    the match holds so far. *)
Lemma scan_plus_inside_any (s : jsstring) :
  forall cur1 cur2, cur1 <> [] -> cur2 <> [] ->
    List.length (scan_plus a cur1 s) = List.length (scan_plus a cur2 s).
Proof.
  induction s as [|c s IH]; intros cur1 cur2 H1 H2; cbn [scan_plus].
  - destruct cur1, cur2; try contradiction; reflexivity.
  - destruct (atom_matches a c).
    + apply IH; discriminate.
    + destruct cur1, cur2; try contradiction; reflexivity.
Qed.

Lemma scan_plus_inside_length (cur s : jsstring) :
  cur <> [] ->
  (List.length (scan_plus a cur s)
   + Nat.b2n (starts_inside (atom_matches a) s)
   = 1 + List.length (scan_plus a [] s))%nat.
Proof.
  intros Hcur. destruct s as [|c s]; cbn [scan_plus starts_inside].
  - destruct cur; [contradiction | reflexivity].
  - destruct (atom_matches a c); cbn [Nat.b2n].
    + rewrite (scan_plus_inside_any s (c :: cur) [c]) by discriminate. lia.
    + destruct cur; [contradiction|]. cbn [List.length]. lia.
Qed.

(** Two runs are matched as one exactly when the first text ends inside a
    run and the second starts inside one. *)
Lemma scan_plus_app_length (s t : jsstring) :
  forall cur,
    (List.length (scan_plus a cur (s ++ t))
     + Nat.b2n (ends_inside (atom_matches a) (nonempty cur) s
                && starts_inside (atom_matches a) t)
     = List.length (scan_plus a cur s) + List.length (scan_plus a [] t))%nat.
Proof.
  induction s as [|c s IH]; intros cur.
  - cbn [app ends_inside fold_left]. destruct cur as [|x cur].
    + cbn [nonempty andb Nat.b2n scan_plus List.length]. lia.
    + cbn [nonempty andb scan_plus List.length].
      rewrite (scan_plus_inside_length (x :: cur) t) by discriminate. lia.
  - rewrite ends_inside_cons. cbn [app scan_plus].
    destruct (atom_matches a c) eqn:Hc.
    + apply (IH (c :: cur)).
    + specialize (IH []). cbn [nonempty] in IH.
      destruct cur; cbn [List.length]; lia.
Qed.

End WordsOfConcatenation.

Lemma list_sum_count_assemble (p : Z -> bool) (texts : list jsstring) :
  count p (Spec.assemble texts)
  = (list_sum (map (count p) texts)
     + (if p 0x000A%Z then List.length texts else 0))%nat.
Proof.
  induction texts as [|t ts IH]; [now destruct (p 10%Z)|].
  change (Spec.assemble (t :: ts)) with ((t ++ LF) ++ Spec.assemble ts).
  rewrite !count_app, IH. unfold LF. rewrite count_cons.
  change (count p []) with 0%nat. cbn [map List.length]. simpl list_sum.
  destruct (p 10%Z); lia.
Qed.

Lemma length_assemble (texts : list jsstring) :
  List.length (Spec.assemble texts)
  = (list_sum (map (@List.length Z) texts) + List.length texts)%nat.
Proof.
  induction texts as [|t ts IH]; [reflexivity|].
  change (Spec.assemble (t :: ts)) with ((t ++ LF) ++ Spec.assemble ts).
  rewrite !length_app, IH. cbn [map List.length LF]. simpl list_sum. lia.
Qed.

Lemma words_assemble (a : Atom) (texts : list jsstring) :
  atom_matches a 0x000A = false ->
  List.length (scan_plus a [] (Spec.assemble texts))
  = list_sum (map (fun t => List.length (scan_plus a [] t)) texts).
Proof.
  intros Hlf. induction texts as [|t ts IH]; [reflexivity|].
  change (Spec.assemble (t :: ts)) with ((t ++ LF) ++ Spec.assemble ts).
  rewrite <- app_assoc.
  pose proof (scan_plus_app_length a t (LF ++ Spec.assemble ts) []) as H.
  cbn [LF app starts_inside] in H. rewrite Hlf, andb_false_r in H.
  cbn [Nat.b2n scan_plus] in H. rewrite Hlf in H.
  cbn [LF app map]. simpl list_sum. rewrite <- IH. lia.
Qed.

Lemma list_sum_map_ext {A : Type} (f g : A -> nat) (l : list A) :
  (forall x, f x = g x) -> list_sum (map f l) = list_sum (map g l).
Proof.
  intros H. unfold list_sum.
  induction l as [|x l IH]; cbn; [reflexivity | now rewrite H, IH].
Qed.

Lemma latin_letter_ends (s : jsstring) :
  ends_inside (atom_matches (char_class englishLetters_src)) false s
  = latin_letter (last s 0).
Proof.
  rewrite (ends_inside_last _ 0). destruct s; [reflexivity|].
  apply englishLetters_class.
Qed.

Lemma latin_letter_starts (t : jsstring) :
  starts_inside (atom_matches (char_class englishLetters_src)) t
  = latin_letter (hd 0 t).
Proof. destruct t; [reflexivity | apply englishLetters_class]. Qed.

(** X8: the statistics of a concatenation.  Every count of [s ++ t] is the
    sum of the counts of [s] and of [t], except the word count, which is
    one less when [s] ends with a Latin letter and [t] starts with one: the
    two half words are matched as one. *)
Theorem counts_of_concatenation (s t : jsstring) :
  (counted englishWords (s ++ t)
   + Nat.b2n (latin_letter (last s 0%Z) && latin_letter (hd 0%Z t))
   = counted englishWords s + counted englishWords t)%nat /\
  (counted chineseChars (s ++ t)
   = counted chineseChars s + counted chineseChars t)%nat /\
  (counted englishLetters (s ++ t)
   = counted englishLetters s + counted englishLetters t)%nat /\
  (counted numbers (s ++ t) = counted numbers s + counted numbers t)%nat /\
  (counted chinesePunctuation (s ++ t)
   = counted chinesePunctuation s + counted chinesePunctuation t)%nat /\
  (counted englishPunctuation (s ++ t)
   = counted englishPunctuation s + counted englishPunctuation t)%nat /\
  (counted spaces (s ++ t) = counted spaces s + counted spaces t)%nat /\
  (counted lineBreaks (s ++ t)
   = counted lineBreaks s + counted lineBreaks t)%nat /\
  (counted totalChars (s ++ t)
   = counted totalChars s + counted totalChars t)%nat /\
  (counted totalCharsNoSpace (s ++ t)
   = counted totalCharsNoSpace s + counted totalCharsNoSpace t)%nat.
Proof.
  destruct (counted_fields s)
    as (Hs1 & Hs2 & Hs3 & Hs4 & Hs5 & Hs6 & Hs7 & Hs8 & Hs9 & Hs10).
  destruct (counted_fields t)
    as (Ht1 & Ht2 & Ht3 & Ht4 & Ht5 & Ht6 & Ht7 & Ht8 & Ht9 & Ht10).
  destruct (counted_fields (s ++ t))
    as (H1 & H2 & H3 & H4 & H5 & H6 & H7 & H8 & H9 & H10).
  rewrite Hs1, Hs2, Hs3, Hs4, Hs5, Hs6, Hs7, Hs8, Hs9, Hs10.
  rewrite Ht1, Ht2, Ht3, Ht4, Ht5, Ht6, Ht7, Ht8, Ht9, Ht10.
  rewrite H1, H2, H3, H4, H5, H6, H7, H8, H9, H10.
  rewrite !count_app, length_app.
  rewrite <- latin_letter_ends, <- latin_letter_starts.
  split; [|repeat split].
  apply (scan_plus_app_length (char_class englishLetters_src) s t []).
Qed.

(** ** The statistics of a document *)

(** X9: the statistics of a document that was read are the sums of those
    of its pages (an empty page counting for nothing): no word spans two
    pages, and each page adds the one line feed that follows it to the
    whitespace, the line breaks and the total. *)
Theorem document_counts_are_page_sums
        (pdf : PDFDocumentProxy) (text : jsstring) :
  read_pages pdf = Some text ->
  exists texts,
    List.length texts = numPages pdf /\
    (forall j, (j < numPages pdf)%nat ->
               option_map pageText (textContent_at pdf (S j))
               = nth_error texts j) /\
    let sum := fun f => list_sum (map (counted f) texts) in
    counted englishWords text = sum englishWords /\
    counted chineseChars text = sum chineseChars /\
    counted englishLetters text = sum englishLetters /\
    counted numbers text = sum numbers /\
    counted chinesePunctuation text = sum chinesePunctuation /\
    counted englishPunctuation text = sum englishPunctuation /\
    counted totalCharsNoSpace text = sum totalCharsNoSpace /\
    counted spaces text = (sum spaces + numPages pdf)%nat /\
    counted lineBreaks text = (sum lineBreaks + numPages pdf)%nat /\
    counted totalChars text = (sum totalChars + numPages pdf)%nat.
Proof.
  intros H. destruct (read_pages_some_inv pdf text H)
    as (texts & Hlen & Hpages & ->).
  exists texts. split; [exact Hlen|]. split.
  { intros j Hj. apply Hpages. now rewrite Hlen. }
  cbv zeta. rewrite <- Hlen.
  destruct (counted_fields (Spec.assemble texts))
    as (H1 & H2 & H3 & H4 & H5 & H6 & H7 & H8 & H9 & H10).
  rewrite H1, H2, H3, H4, H5, H6, H7, H8, H9, H10.
  rewrite words_assemble by reflexivity.
  rewrite !list_sum_count_assemble, length_assemble.
  change (atom_matches (char_class chineseChars_src) 10) with false.
  change (atom_matches (char_class englishLetters_src) 10) with false.
  change (atom_matches (char_class numbers_src) 10) with false.
  change (atom_matches (char_class chinesePunctuation_src) 10) with false.
  change (atom_matches (char_class englishPunctuation_src) 10) with false.
  change (atom_matches EscapeS 10) with true.
  change (atom_matches EscapeN 10) with true.
  cbv beta iota. cbn [negb]. cbv beta iota. rewrite !Nat.add_0_r.
  pose proof (fun t => counted_fields t) as F.
  rewrite (list_sum_map_ext _ _ texts (fun t => proj1 (F t))).
  rewrite (list_sum_map_ext _ _ texts (fun t => proj1 (proj2 (F t)))).
  rewrite (list_sum_map_ext _ _ texts
             (fun t => proj1 (proj2 (proj2 (F t))))).
  rewrite (list_sum_map_ext _ _ texts
             (fun t => proj1 (proj2 (proj2 (proj2 (F t)))))).
  rewrite (list_sum_map_ext _ _ texts
             (fun t => proj1 (proj2 (proj2 (proj2 (proj2 (F t))))))).
  rewrite (list_sum_map_ext _ _ texts
             (fun t => proj1 (proj2 (proj2 (proj2 (proj2 (proj2 (F t)))))))).
  rewrite (list_sum_map_ext _ _ texts
             (fun t => proj1 (proj2 (proj2 (proj2 (proj2 (proj2
                                  (proj2 (F t))))))))).
  rewrite (list_sum_map_ext _ _ texts
             (fun t => proj1 (proj2 (proj2 (proj2 (proj2 (proj2
                                  (proj2 (proj2 (F t)))))))))).
  rewrite (list_sum_map_ext _ _ texts
             (fun t => proj1 (proj2 (proj2 (proj2 (proj2 (proj2
                                  (proj2 (proj2 (proj2 (F t))))))))))).
  rewrite (list_sum_map_ext _ _ texts
             (fun t => proj2 (proj2 (proj2 (proj2 (proj2 (proj2
                                  (proj2 (proj2 (proj2 (F t))))))))))).
  repeat split.
Qed.

Lemma document_counts_are_page_sums_witness :
  read_pages pdf_AB = Some [65; 10; 66; 10] /\
  counted englishWords [65; 10; 66; 10] = 2%nat /\
  counted lineBreaks [65; 10; 66; 10] = 2%nat.
Proof.
  assert (H : read_pages pdf_AB = Some [65; 10; 66; 10]) by reflexivity.
  split; [exact H|].
  destruct (document_counts_are_page_sums pdf_AB _ H)
    as (texts & Hlen & Hpages & Hw & _ & _ & _ & _ & _ & _ & _ & Hl & _).
  split; reflexivity.
Defined.

Lemma assemble_nil_iff (texts : list jsstring) :
  Spec.assemble texts = [] <-> texts = [].
Proof.
  split; [|now intros ->]. destruct texts as [|t ts]; [reflexivity|].
  change (Spec.assemble (t :: ts)) with ((t ++ LF) ++ Spec.assemble ts).
  intros H. apply app_eq_nil in H. destruct H as [H _].
  apply app_eq_nil in H. destruct H as [_ H]. discriminate H.
Qed.

(** X10: a document that was read has statistics exactly when it has at
    least one page; they then count at least one line break and one
    character per page.  A document of no page is read without error and
    leaves the statistics absent. *)
Theorem document_has_statistics_iff_pages
        (pdf : PDFDocumentProxy) (text : jsstring) :
  read_pages pdf = Some text ->
  (stats text = None <-> numPages pdf = 0%nat) /\
  (numPages pdf <= counted lineBreaks text)%nat /\
  (numPages pdf <= counted totalChars text)%nat.
Proof.
  intros H. destruct (read_pages_some_inv pdf text H)
    as (texts & Hlen & _ & ->).
  rewrite <- Hlen. split.
  - rewrite stats_none, assemble_nil_iff. split; [now intros ->|].
    now destruct texts.
  - destruct (counted_fields (Spec.assemble texts))
      as (_ & _ & _ & _ & _ & _ & _ & -> & -> & _).
    rewrite list_sum_count_assemble, length_assemble.
    change (atom_matches EscapeN 10) with true. cbv iota. lia.
Qed.

Lemma document_has_statistics_iff_pages_witness :
  read_pages (pdf_of_texts []) = Some [] /\
  stats [] = None /\ numPages (pdf_of_texts []) = 0%nat.
Proof.
  assert (H : read_pages (pdf_of_texts []) = Some []) by reflexivity.
  split; [exact H|].
  destruct (document_has_statistics_iff_pages (pdf_of_texts []) [] H)
    as ((_ & Hz) & _).
  split; [exact (Hz eq_refl) | reflexivity].
Defined.

(** ** How the categories overlap *)

Lemma count_le3 (p q r w : Z -> bool) (s : list Z) :
  (forall c, (Nat.b2n (p c) + Nat.b2n (q c) + Nat.b2n (r c)
              <= Nat.b2n (w c))%nat) ->
  (count p s + count q s + count r s <= count w s)%nat.
Proof.
  intros H. induction s as [|c s IH]; [reflexivity|].
  rewrite !count_cons. specialize (H c).
  destruct (p c), (q c), (r c), (w c); cbn [Nat.b2n] in H; lia.
Qed.

Lemma count_le2 (p q w : Z -> bool) (s : list Z) :
  (forall c, (Nat.b2n (p c) + Nat.b2n (q c) <= Nat.b2n (w c))%nat) ->
  (count p s + count q s <= count w s)%nat.
Proof.
  intros H. induction s as [|c s IH]; [reflexivity|].
  rewrite !count_cons. specialize (H c).
  destruct (p c), (q c), (w c); cbn [Nat.b2n] in H; lia.
Qed.

Lemma count_sum2 (p q u v : Z -> bool) (s : list Z) :
  (forall c, (Nat.b2n (p c) + Nat.b2n (q c)
              = Nat.b2n (u c) + Nat.b2n (v c))%nat) ->
  (count p s + count q s = count u s + count v s)%nat.
Proof.
  intros H. induction s as [|c s IH]; [reflexivity|].
  rewrite !count_cons. specialize (H c).
  destruct (p c), (q c), (u c), (v c); cbn [Nat.b2n] in H; lia.
Qed.

Lemma latin_letter_true (c : Z) :
  latin_letter c = true -> 0x41 <= c <= 0x5A \/ 0x61 <= c <= 0x7A.
Proof. unfold latin_letter. bool_prop; trivial. Qed.

Lemma ascii_digit_true (c : Z) : ascii_digit c = true -> 0x30 <= c <= 0x39.
Proof. unfold ascii_digit. bool_prop; trivial. Qed.

Lemma englishPunctuation_true (c : Z) :
  member englishPunctuation_set c = true ->
  0x21 <= c <= 0x2F \/ 0x3A <= c <= 0x40 \/ 0x5B <= c <= 0x60 \/
  0x7B <= c <= 0x7E.
Proof.
  rewrite member_In. unfold englishPunctuation_set. cbn [In].
  intros H. repeat destruct H as [<-|H]; try lia; try contradiction.
Qed.

Lemma white_space_true (c : Z) :
  in_ranges white_space c = true -> c <= 0x20 \/ 0xA0 <= c.
Proof.
  unfold in_ranges, white_space, in_range. cbn [existsb fst snd].
  rewrite orb_false_r. bool_prop. lia.
Qed.

Lemma chineseChars_accepts_bmp (c : Z) :
  chineseChars_accepts c = true ->
  c < 0x10000 /\ Utf16.is_surrogate c = false.
Proof.
  unfold chineseChars_accepts, Utf16.is_surrogate. bool_prop. lia.
Qed.

(** X11: what [chineseChars] counts, in code points.  It is the number of
    code points in U+0030..U+2FA1, U+3400..U+4DBF, U+4E00..U+9FFF and
    U+F900..U+FAFF; no code point above U+FFFF is counted.  Every ASCII
    letter and digit is therefore counted as a Chinese character too. *)
Theorem chineseChars_in_code_points (cps : list Z) :
  Forall Utf16.scalar cps ->
  match stats (Utf16.encode cps) with
  | Some r =>
    chineseChars r = count chineseChars_accepts cps /\
    chineseChars r
    = count (fun cp => chineseChars_accepts cp && Utf16.is_bmp cp) cps /\
    (englishLetters r + numbers r <= chineseChars r)%nat
  | None => cps = []
  end.
Proof.
  intros Hcps. destruct (stats (Utf16.encode cps)) as [r|] eqn:E;
    [|apply encode_nil_inv, stats_none, E].
  destruct (stats_fields _ r E) as (Hc & _ & Hl & Hn & _).
  rewrite (count_ext _ _ _ chineseChars_class) in Hc.
  rewrite (count_ext _ _ _ englishLetters_class) in Hl.
  rewrite (count_ext _ _ _ numbers_class) in Hn.
  split; [|split].
  - rewrite Hc. apply count_encode; [exact Hcps|].
    apply chineseChars_accepts_bmp.
  - rewrite Hc, (count_encode _ cps Hcps chineseChars_accepts_bmp).
    apply count_ext. intros c. unfold Utf16.is_bmp.
    destruct (chineseChars_accepts c) eqn:Ha; [|reflexivity].
    apply chineseChars_accepts_bmp in Ha. destruct Ha as [Ha _].
    apply Z.ltb_lt in Ha. now rewrite Ha.
  - rewrite Hc, Hl, Hn. apply count_le2. intros c.
    destruct (latin_letter c) eqn:L, (ascii_digit c) eqn:D,
             (chineseChars_accepts c) eqn:A; cbn [Nat.b2n]; try lia;
      exfalso; try apply latin_letter_true in L;
      try apply ascii_digit_true in D;
      (try lia); revert A; unfold chineseChars_accepts; bool_prop; lia.
Qed.

Lemma chineseChars_in_code_points_witness :
  Forall Utf16.scalar [0x41; 0x4E16; 0x20000; 0x31] /\
  match stats (Utf16.encode [0x41; 0x4E16; 0x20000; 0x31]) with
  | Some r =>
    chineseChars r = 3%nat /\ chineseChars r = 3%nat /\
    (englishLetters r + numbers r <= chineseChars r)%nat
  | None => False
  end.
Proof.
  assert (H : Forall Utf16.scalar [0x41; 0x4E16; 0x20000; 0x31])
    by (apply scalarb_scalar; reflexivity).
  split; [exact H|].
  generalize (chineseChars_in_code_points _ H).
  cbv zeta. intros W.
  destruct (stats (Utf16.encode [0x41; 0x4E16; 0x20000; 0x31])) as [r|] eqn:E;
    [exact W | discriminate E].
Defined.

(** X12: the ASCII categories do not overlap with one another nor with the
    whitespace: letters, digits and English punctuation together are at
    most the characters that are not whitespace, and with the whitespace at
    most the total.  [numbers] is the number of U+0030..U+0039. *)
Theorem ascii_categories_are_disjoint (text : jsstring) :
  match stats text with
  | Some r =>
    numbers r = count ascii_digit text /\
    (englishLetters r + numbers r + englishPunctuation r
     <= totalCharsNoSpace r)%nat /\
    (englishLetters r + numbers r + englishPunctuation r + spaces r
     <= totalChars r)%nat
  | None => text = []
  end.
Proof.
  destruct (stats text) as [r|] eqn:E; [|now apply stats_none].
  destruct (stats_fields text r E)
    as (_ & _ & Hl & Hn & _ & Hp & Hs & _ & Ht & Hns).
  rewrite (count_ext _ _ _ englishLetters_class) in Hl.
  rewrite (count_ext _ _ _ numbers_class) in Hn.
  rewrite (count_ext _ _ _ englishPunctuation_class) in Hp.
  assert (Hle : (englishLetters r + numbers r + englishPunctuation r
                 <= totalCharsNoSpace r)%nat).
  { rewrite Hl, Hn, Hp, Hns. apply count_le3. intros c.
    cbn [atom_matches].
    destruct (latin_letter c) eqn:L, (ascii_digit c) eqn:D,
             (member englishPunctuation_set c) eqn:P,
             (in_ranges white_space c) eqn:W; cbn [Nat.b2n negb]; try lia;
      exfalso; try apply latin_letter_true in L;
      try apply ascii_digit_true in D;
      try apply englishPunctuation_true in P;
      try apply white_space_true in W; lia. }
  split; [exact Hn|]. split; [exact Hle|].
  pose proof (count_negb (atom_matches EscapeS) text) as Hsum.
  rewrite <- Hs, <- Hns, <- Ht in Hsum. lia.
Qed.

(** X13: the two punctuation fields overlap on the two ASCII quotation
    marks and nowhere else: a code unit is counted in both exactly when it
    is U+0022 or U+0027, so that the two fields together exceed the number
    of punctuation characters by the number of those marks. *)
Theorem punctuation_fields_overlap_on_quotes :
  (forall c : Z,
      member chinesePunctuation_set c && member englishPunctuation_set c
      = (c =? 0x22) || (c =? 0x27)) /\
  forall text : jsstring,
    match stats text with
    | Some r =>
      (chinesePunctuation r + englishPunctuation r
       = count (fun c => member chinesePunctuation_set c
                         || member englishPunctuation_set c) text
         + count (fun c => (c =? 0x22)%Z || (c =? 0x27)%Z) text)%nat
    | None => text = []
    end.
Proof.
  assert (Hboth : forall c : Z,
      member chinesePunctuation_set c && member englishPunctuation_set c
      = (c =? 0x22) || (c =? 0x27)).
  { intros c. apply eq_true_iff_eq.
    rewrite andb_true_iff, orb_true_iff, !Z.eqb_eq, !member_In.
    unfold chinesePunctuation_set, englishPunctuation_set. cbn [In].
    split.
    - intros [H1 H2]. repeat destruct H1 as [<-|H1]; try lia;
        try contradiction;
        exfalso; repeat destruct H2 as [H2|H2]; try discriminate H2;
        contradiction.
    - intros [-> | ->]; split; tauto. }
  split; [exact Hboth|]. intros text.
  destruct (stats text) as [r|] eqn:E; [|now apply stats_none].
  destruct (punctuation_counts text r E) as [-> ->].
  apply count_sum2. intros c. rewrite <- Hboth.
  destruct (member chinesePunctuation_set c),
           (member englishPunctuation_set c); reflexivity.
Qed.
